(** * Fund screener: the daily-metrics pipeline and the crossover detectors

    A shallow embedding of [src/processor.py], [src/signals.py] and the
    schemas of [src/models.py].

    Modelling conventions.
    - A Python [float] is a value of [float] below: a finite number, one of
      the two infinities, or NaN.  Finite arithmetic is exact (rationals, no
      rounding, no overflow, no signed zero); the special values follow
      IEEE 754 as numpy applies them.  [Decimal] and [int] cells take part in
      column arithmetic as finite numbers.
    - pandas treats [None] and NaN alike in every operation the pipeline
      uses ([isna], [ffill], comparisons, arithmetic), so a missing float
      cell is [NaN].
    - A [date] is its proleptic ordinal, an integer.
    - A DataFrame is its list of column names together with its rows in
      positional order; a row is a record with one field per column the
      pipeline can create.  A field whose column is absent is never read:
      every access goes through the column list first, and raises
      [KeyError] as pandas does. *)

From Stdlib Require Import String List ZArith QArith Qcanon Bool Lia Arith.
From Stdlib Require Import Sorted Permutation.
Import ListNotations.

Local Open Scope string_scope.
Local Open Scope Z_scope.

(* ================================================================== *)
(** * Floats *)

Inductive float : Type :=
| Fin (q : Qc)
| PInf
| NInf
| NaN.

Definition qz (z : Z) : Qc := Q2Qc (inject_Z z).
Definition qnat (n : nat) : Qc := qz (Z.of_nat n).

Definition is_finite (x : float) : bool :=
  match x with Fin _ => true | _ => false end.

(** [pd.notna] / [Series.notna] on a float cell. *)
Definition notna (x : float) : bool :=
  match x with NaN => false | _ => true end.

Definition isna (x : float) : bool := negb (notna x).

Definition Qcsign (q : Qc) : comparison := (q ?= 0)%Qc.

Definition fneg (x : float) : float :=
  match x with
  | Fin q => Fin (- q)%Qc
  | PInf => NInf
  | NInf => PInf
  | NaN => NaN
  end.

Definition fadd (x y : float) : float :=
  match x, y with
  | NaN, _ | _, NaN => NaN
  | Fin a, Fin b => Fin (a + b)%Qc
  | PInf, NInf | NInf, PInf => NaN
  | PInf, _ | _, PInf => PInf
  | NInf, _ | _, NInf => NInf
  end.

Definition fsub (x y : float) : float := fadd x (fneg y).

(** The infinity carrying the sign [s]; a zero sign is the invalid
    operation [inf * 0]. *)
Definition inf_of_sign (s : comparison) : float :=
  match s with Gt => PInf | Lt => NInf | Eq => NaN end.

Definition sign_mul (s t : comparison) : comparison :=
  match s, t with
  | Eq, _ | _, Eq => Eq
  | Gt, Gt | Lt, Lt => Gt
  | _, _ => Lt
  end.

Definition fsign (x : float) : comparison :=
  match x with
  | Fin q => Qcsign q
  | PInf => Gt
  | NInf => Lt
  | NaN => Eq
  end.

Definition fmul (x y : float) : float :=
  match x, y with
  | NaN, _ | _, NaN => NaN
  | Fin a, Fin b => Fin (a * b)%Qc
  | _, _ => inf_of_sign (sign_mul (fsign x) (fsign y))
  end.

(** Division as numpy performs it under [errstate(... ="ignore")] or the
    default ["warn"]: a zero denominator gives an infinity, or NaN for
    [0/0]; nothing is raised. *)
Definition fdiv (x y : float) : float :=
  match x, y with
  | NaN, _ | _, NaN => NaN
  | Fin a, Fin b =>
      match Qcsign b with
      | Eq => inf_of_sign (Qcsign a)
      | _ => Fin (a / b)%Qc
      end
  | Fin _, _ => Fin 0%Qc
  | _, Fin b =>
      match Qcsign b with
      | Lt => fneg x
      | _ => x
      end
  | _, _ => NaN
  end.

(** Ordering; [None] when one side is NaN. *)
Definition fcompare (x y : float) : option comparison :=
  match x, y with
  | NaN, _ | _, NaN => None
  | Fin a, Fin b => Some (a ?= b)%Qc
  | NInf, NInf | PInf, PInf => Some Eq
  | NInf, _ | _, PInf => Some Lt
  | PInf, _ | _, NInf => Some Gt
  end.

Definition flt (x y : float) : bool :=
  match fcompare x y with Some Lt => true | _ => false end.
Definition fle (x y : float) : bool :=
  match fcompare x y with Some Lt | Some Eq => true | _ => false end.
Definition fgt (x y : float) : bool := flt y x.
Definition fge (x y : float) : bool := fle y x.
Definition feq (x y : float) : bool :=
  match fcompare x y with Some Eq => true | _ => false end.
Definition fne (x y : float) : bool := negb (feq x y).

(** [np.where(cond, a, b)] at one position. *)
Definition np_where (c : bool) (a b : float) : float := if c then a else b.

(* ================================================================== *)
(** * Exceptions and the result monad *)

Inductive exn : Type :=
| KeyError (key : string)
| ValidationError (msg : string).

Definition result (A : Type) : Type := (exn + A)%type.

Definition ret {A} (a : A) : result A := inr a.
Definition raise {A} (e : exn) : result A := inl e.
Definition bind {A B} (m : result A) (k : A -> result B) : result B :=
  match m with
  | inl e => inl e
  | inr a => k a
  end.

Notation "x <- m ;; k" := (bind m (fun x => k))
  (at level 61, m at next level, right associativity).

(* ================================================================== *)
(** * models.py *)

Record PriceBar : Type := mkPriceBar {
  pb_date : Z;
  pb_open : float;
  pb_high : float;
  pb_low : float;
  pb_close : float;
  pb_volume : option Z
}.

(** [PriceBar.validate_ohlc]: the fields are never [None], so the check
    is [high < low]. *)
Definition validate_ohlc (p : PriceBar) : result PriceBar :=
  if flt (pb_high p) (pb_low p)
  then raise (ValidationError "High must be >= Low")
  else ret p.

Record RawFundamentals : Type := mkRawFundamentals {
  rf_total_shareholder_equity : option Qc;
  rf_shares_outstanding : option Z;
  rf_total_debt : option Qc;
  rf_cash_and_short_term_investments : option Qc;
  rf_book_value : option Qc;
  rf_enterprise_value : option Qc
}.

Record RawData : Type := mkRawData {
  rd_ticker : string;
  rd_prices : list PriceBar;
  rd_fundamentals : option RawFundamentals
}.

Record DailyMetrics : Type := mkDailyMetrics {
  dm_ticker : string;
  dm_date : Z;
  dm_open : float;
  dm_high : float;
  dm_low : float;
  dm_close : float;
  dm_volume : option Z;
  dm_sma_50 : float;
  dm_sma_200 : float;
  dm_high_52w : float;
  dm_pct_from_52w_high : float;
  dm_book_value_per_share : float;
  dm_price_to_book : float;
  dm_enterprise_value : float
}.

(* ================================================================== *)
(** * DataFrames *)

(** A cell of the [volume] column: an integer (held as int64, or as an
    integral float64 once the column carries a NaN), [None] in an object
    column, or NaN. *)
Inductive vcell : Type :=
| VInt (v : Z)
| VNone
| VNaN.

Definition vcell_isna (c : vcell) : bool :=
  match c with VInt _ => false | _ => true end.

Record Row : Type := mkRow {
  date : Z;
  open : float;
  high : float;
  low : float;
  close : float;
  volume : vcell;
  total_shareholder_equity : float;
  shares_outstanding : float;
  total_debt : float;
  cash_and_short_term_investments : float;
  book_value : float;
  enterprise_value : float;
  sma_50 : float;
  sma_200 : float;
  high_52w : float;
  pct_from_52w_high : float;
  book_value_per_share : float;
  price_to_book : float;
  ticker : string
}.

Record DataFrame : Type := mkDataFrame {
  columns : list string;
  rows : list Row
}.

Definition has_column (c : string) (df : DataFrame) : bool :=
  if in_dec string_dec c (columns df) then true else false.

Definition has_columns (cs : list string) (df : DataFrame) : bool :=
  forallb (fun c => has_column c df) cs.

(** [df[c]]: the column, or [KeyError]. *)
Definition getitem {A} (c : string) (proj : Row -> A) (df : DataFrame)
  : result (list A) :=
  if has_column c df then ret (map proj (rows df)) else raise (KeyError c).

(** [df.get(c)]: the column, or [None]. *)
Definition df_get {A} (c : string) (proj : Row -> A) (df : DataFrame)
  : option (list A) :=
  if has_column c df then Some (map proj (rows df)) else None.

(** [pd.Series(index=df.index, data=np.nan)]. *)
Definition nan_series (df : DataFrame) : list float :=
  map (fun _ => NaN) (rows df).

Definition add_column (c : string) (cs : list string) : list string :=
  if in_dec string_dec c cs then cs else cs ++ [c].

Fixpoint map2 {A B C} (f : A -> B -> C) (xs : list A) (ys : list B) : list C :=
  match xs, ys with
  | x :: xs', y :: ys' => f x y :: map2 f xs' ys'
  | _, _ => []
  end.

(** [df[c] = values]: positional assignment of a column of the frame's
    own length. *)
Definition setitem {A} (c : string) (set : A -> Row -> Row) (vs : list A)
    (df : DataFrame) : DataFrame :=
  {| columns := add_column c (columns df);
     rows := map2 set vs (rows df) |}.

Definition set_sma_50 (v : float) (r : Row) : Row :=
  mkRow (date r) (open r) (high r) (low r) (close r) (volume r)
    (total_shareholder_equity r) (shares_outstanding r) (total_debt r)
    (cash_and_short_term_investments r) (book_value r) (enterprise_value r)
    v (sma_200 r) (high_52w r) (pct_from_52w_high r)
    (book_value_per_share r) (price_to_book r) (ticker r).

Definition set_sma_200 (v : float) (r : Row) : Row :=
  mkRow (date r) (open r) (high r) (low r) (close r) (volume r)
    (total_shareholder_equity r) (shares_outstanding r) (total_debt r)
    (cash_and_short_term_investments r) (book_value r) (enterprise_value r)
    (sma_50 r) v (high_52w r) (pct_from_52w_high r)
    (book_value_per_share r) (price_to_book r) (ticker r).

Definition set_high_52w (v : float) (r : Row) : Row :=
  mkRow (date r) (open r) (high r) (low r) (close r) (volume r)
    (total_shareholder_equity r) (shares_outstanding r) (total_debt r)
    (cash_and_short_term_investments r) (book_value r) (enterprise_value r)
    (sma_50 r) (sma_200 r) v (pct_from_52w_high r)
    (book_value_per_share r) (price_to_book r) (ticker r).

Definition set_pct_from_52w_high (v : float) (r : Row) : Row :=
  mkRow (date r) (open r) (high r) (low r) (close r) (volume r)
    (total_shareholder_equity r) (shares_outstanding r) (total_debt r)
    (cash_and_short_term_investments r) (book_value r) (enterprise_value r)
    (sma_50 r) (sma_200 r) (high_52w r) v
    (book_value_per_share r) (price_to_book r) (ticker r).

Definition set_book_value_per_share (v : float) (r : Row) : Row :=
  mkRow (date r) (open r) (high r) (low r) (close r) (volume r)
    (total_shareholder_equity r) (shares_outstanding r) (total_debt r)
    (cash_and_short_term_investments r) (book_value r) (enterprise_value r)
    (sma_50 r) (sma_200 r) (high_52w r) (pct_from_52w_high r)
    v (price_to_book r) (ticker r).

Definition set_price_to_book (v : float) (r : Row) : Row :=
  mkRow (date r) (open r) (high r) (low r) (close r) (volume r)
    (total_shareholder_equity r) (shares_outstanding r) (total_debt r)
    (cash_and_short_term_investments r) (book_value r) (enterprise_value r)
    (sma_50 r) (sma_200 r) (high_52w r) (pct_from_52w_high r)
    (book_value_per_share r) v (ticker r).

Definition set_enterprise_value (v : float) (r : Row) : Row :=
  mkRow (date r) (open r) (high r) (low r) (close r) (volume r)
    (total_shareholder_equity r) (shares_outstanding r) (total_debt r)
    (cash_and_short_term_investments r) (book_value r) v
    (sma_50 r) (sma_200 r) (high_52w r) (pct_from_52w_high r)
    (book_value_per_share r) (price_to_book r) (ticker r).

Definition set_ticker (v : string) (r : Row) : Row :=
  mkRow (date r) (open r) (high r) (low r) (close r) (volume r)
    (total_shareholder_equity r) (shares_outstanding r) (total_debt r)
    (cash_and_short_term_investments r) (book_value r) (enterprise_value r)
    (sma_50 r) (sma_200 r) (high_52w r) (pct_from_52w_high r)
    (book_value_per_share r) (price_to_book r) v.

(** ** [sort_values("date")]

    The rows in ascending date order.  Rows with equal dates keep their
    relative order here; for the distinct dates of a price series every
    sorting algorithm gives this same result. *)
Fixpoint insert_by_date (r : Row) (l : list Row) : list Row :=
  match l with
  | [] => [r]
  | h :: t => if date r <=? date h then r :: l else h :: insert_by_date r t
  end.

Fixpoint sort_by_date (l : list Row) : list Row :=
  match l with
  | [] => []
  | r :: t => insert_by_date r (sort_by_date t)
  end.

Definition sort_values_date (df : DataFrame) : result DataFrame :=
  if has_column "date" df
  then ret {| columns := columns df; rows := sort_by_date (rows df) |}
  else raise (KeyError "date").

(** ** Rolling windows

    [Series.rolling(window=w, min_periods=m)] at position [i] sees the
    positions [max 0 (i - w + 1) .. i].  NaN cells are not observations,
    and pandas replaces the infinities by NaN before it aggregates, so the
    observations of a window are its finite cells.  With fewer than [m]
    observations (or none) the result is NaN. *)
Definition window {A} (w i : nat) (xs : list A) : list A :=
  skipn (S i - w) (firstn (S i) xs).

Fixpoint finite_values (xs : list float) : list Qc :=
  match xs with
  | [] => []
  | Fin q :: t => q :: finite_values t
  | _ :: t => finite_values t
  end.

Definition Qcsum (qs : list Qc) : Qc := fold_right Qcplus 0%Qc qs.

Definition Qcmax (a b : Qc) : Qc :=
  match (a ?= b)%Qc with Lt => b | _ => a end.

Definition Qcmaximum (q : Qc) (qs : list Qc) : Qc := fold_left Qcmax qs q.

Definition roll_mean (min_periods : nat) (win : list float) : float :=
  let obs := finite_values win in
  if (min_periods <=? length obs)%nat && (0 <? length obs)%nat
  then Fin (Qcsum obs / qnat (length obs))%Qc
  else NaN.

Definition roll_max (min_periods : nat) (win : list float) : float :=
  match finite_values win with
  | [] => NaN
  | q :: qs =>
      if (min_periods <=? S (length qs))%nat
      then Fin (Qcmaximum q qs)
      else NaN
  end.

Definition rolling (w : nat) (agg : list float -> float) (xs : list float)
  : list float :=
  map (fun i => agg (window w i xs)) (seq 0 (length xs)).

(* ================================================================== *)
(** * processor.py *)

Definition pct_expr (c h : float) : float :=
  np_where (notna h) (fmul (fsub (fdiv c h) (Fin 1%Qc)) (Fin (qz 100))) NaN.

Definition _compute_indicators (df : DataFrame) : result DataFrame :=
  df <- sort_values_date df ;;
  c <- getitem "close" close df ;;
  let df := setitem "sma_50" set_sma_50 (rolling 50 (roll_mean 10) c) df in
  c <- getitem "close" close df ;;
  let df := setitem "sma_200" set_sma_200 (rolling 200 (roll_mean 20) c) df in
  h <- getitem "high" high df ;;
  let df := setitem "high_52w" set_high_52w (rolling 252 (roll_max 20) h) df in
  h52 <- getitem "high_52w" high_52w df ;;
  c <- getitem "close" close df ;;
  let df := setitem "pct_from_52w_high" set_pct_from_52w_high
              (map2 (fun c h => pct_expr c h) c h52) df in
  ret df.

(** [_compute_fundamentals]: book value per share, price to book, and
    enterprise value.  [df.get(c)] is [None] only when the frame has no
    column [c]. *)
Definition bvps_expr (s e : float) : float :=
  np_where (fgt s (Fin 0%Qc)) (fdiv e s) NaN.

Definition ptb_expr (c b : float) : float :=
  np_where (notna b && fne b (Fin 0%Qc)) (fdiv c b) NaN.

Definition series_or (o : option (list float)) (default : list float)
  : list float :=
  match o with Some s => s | None => default end.

Definition _compute_fundamentals (df : DataFrame) : result DataFrame :=
  let equity := df_get "total_shareholder_equity" total_shareholder_equity df in
  let shares := df_get "shares_outstanding" shares_outstanding df in
  c <- getitem "close" close df ;;
  let bvps :=
    match equity, shares with
    | Some e, Some s => map2 bvps_expr s e
    | _, _ => series_or (df_get "book_value" book_value df) (nan_series df)
    end in
  let df := setitem "book_value_per_share" set_book_value_per_share bvps df in
  b <- getitem "book_value_per_share" book_value_per_share df ;;
  let df := setitem "price_to_book" set_price_to_book (map2 ptb_expr c b) df in
  if negb (has_column "enterprise_value" df)
     || forallb isna (map enterprise_value (rows df))
  then
    let market_cap :=
      match shares with
      | Some s => map2 fmul s c
      | None => nan_series df
      end in
    let debt := series_or (df_get "total_debt" total_debt df) (nan_series df) in
    let cash :=
      series_or (df_get "cash_and_short_term_investments"
                   cash_and_short_term_investments df) (nan_series df) in
    ret (setitem "enterprise_value" set_enterprise_value
           (map2 fsub (map2 fadd market_cap debt) cash) df)
  else ret df.

(** ** Building frames from records

    [pd.DataFrame(list_of_dicts)]: the columns are the keys of the
    records, so an empty list gives a frame with no columns at all.  A
    [volume] column that mixes integers with [None] becomes float64 and
    its [None] cells NaN; a column of [None] alone stays an object column. *)
Definition price_columns : list string :=
  ["date"; "open"; "high"; "low"; "close"; "volume"].

Definition fundamentals_columns : list string :=
  ["total_shareholder_equity"; "shares_outstanding"; "total_debt";
   "cash_and_short_term_investments"; "book_value"; "enterprise_value";
   "currency"; "as_of"; "source"].

Definition metrics_columns : list string :=
  ["ticker"; "date"; "open"; "high"; "low"; "close"; "volume"; "sma_50";
   "sma_200"; "high_52w"; "pct_from_52w_high"; "book_value_per_share";
   "price_to_book"; "enterprise_value"].

Definition is_some {A} (o : option A) : bool :=
  match o with Some _ => true | None => false end.

Definition volume_cell (numeric : bool) (v : option Z) : vcell :=
  match v with
  | Some z => VInt z
  | None => if numeric then VNaN else VNone
  end.

Definition row_of_bar (numeric : bool) (p : PriceBar) : Row :=
  mkRow (pb_date p) (pb_open p) (pb_high p) (pb_low p) (pb_close p)
    (volume_cell numeric (pb_volume p))
    NaN NaN NaN NaN NaN NaN NaN NaN NaN NaN NaN NaN "".

Definition frame_of_bars (ps : list PriceBar) : DataFrame :=
  {| columns := match ps with [] => [] | _ => price_columns end;
     rows := map (row_of_bar (existsb is_some (map pb_volume ps))) ps |}.

Definition row_of_metrics (numeric : bool) (m : DailyMetrics) : Row :=
  mkRow (dm_date m) (dm_open m) (dm_high m) (dm_low m) (dm_close m)
    (volume_cell numeric (dm_volume m))
    NaN NaN NaN NaN NaN (dm_enterprise_value m)
    (dm_sma_50 m) (dm_sma_200 m) (dm_high_52w m) (dm_pct_from_52w_high m)
    (dm_book_value_per_share m) (dm_price_to_book m) (dm_ticker m).

Definition frame_of_metrics (ms : list DailyMetrics) : DataFrame :=
  {| columns := match ms with [] => [] | _ => metrics_columns end;
     rows := map (row_of_metrics (existsb is_some (map dm_volume ms))) ms |}.

(** ** The as-of merge of the single fundamentals snapshot *)
Definition float_of_decimal (o : option Qc) : float :=
  match o with Some q => Fin q | None => NaN end.

Definition float_of_int (o : option Z) : float :=
  match o with Some z => Fin (qz z) | None => NaN end.

Definition with_fundamentals (f : option RawFundamentals) (r : Row) : Row :=
  mkRow (date r) (open r) (high r) (low r) (close r) (volume r)
    (match f with Some f => float_of_decimal (rf_total_shareholder_equity f)
                | None => NaN end)
    (match f with Some f => float_of_int (rf_shares_outstanding f)
                | None => NaN end)
    (match f with Some f => float_of_decimal (rf_total_debt f)
                | None => NaN end)
    (match f with Some f => float_of_decimal (rf_cash_and_short_term_investments f)
                | None => NaN end)
    (match f with Some f => float_of_decimal (rf_book_value f)
                | None => NaN end)
    (match f with Some f => float_of_decimal (rf_enterprise_value f)
                | None => NaN end)
    (sma_50 r) (sma_200 r) (high_52w r) (pct_from_52w_high r)
    (book_value_per_share r) (price_to_book r) (ticker r).

(** [Series.min()] of the date column; the column of a frame that has
    one is never empty. *)
Definition date_min (ds : list Z) : Z :=
  match ds with
  | [] => 0
  | d :: t => fold_left Z.min t d
  end.

(** [prices.merge(fdf, on="date", how="left")] where [fdf] is the one
    snapshot row stamped with date [d]: a price row on that date receives
    the snapshot, every other row receives missing cells. *)
Definition merge_left (prices : DataFrame) (fund : RawFundamentals) (d : Z)
  : DataFrame :=
  {| columns := columns prices ++ fundamentals_columns;
     rows := map (fun r => with_fundamentals
                             (if date r =? d then Some fund else None) r)
                 (rows prices) |}.

(** [DataFrame.ffill()]: every missing cell takes the last valid value
    above it in its column, if any. *)
Definition ffill_float (prev cur : float) : float :=
  if isna cur then prev else cur.

Definition ffill_vcell (prev cur : vcell) : vcell :=
  if vcell_isna cur then (if vcell_isna prev then cur else prev) else cur.

Definition ffill_row (prev cur : Row) : Row :=
  mkRow (date cur)
    (ffill_float (open prev) (open cur))
    (ffill_float (high prev) (high cur))
    (ffill_float (low prev) (low cur))
    (ffill_float (close prev) (close cur))
    (ffill_vcell (volume prev) (volume cur))
    (ffill_float (total_shareholder_equity prev) (total_shareholder_equity cur))
    (ffill_float (shares_outstanding prev) (shares_outstanding cur))
    (ffill_float (total_debt prev) (total_debt cur))
    (ffill_float (cash_and_short_term_investments prev)
                 (cash_and_short_term_investments cur))
    (ffill_float (book_value prev) (book_value cur))
    (ffill_float (enterprise_value prev) (enterprise_value cur))
    (sma_50 cur) (sma_200 cur) (high_52w cur) (pct_from_52w_high cur)
    (book_value_per_share cur) (price_to_book cur) (ticker cur).

Fixpoint ffill_from (prev : Row) (l : list Row) : list Row :=
  match l with
  | [] => []
  | r :: t => let r' := ffill_row prev r in r' :: ffill_from r' t
  end.

Definition ffill_rows (l : list Row) : list Row :=
  match l with
  | [] => []
  | r :: t => r :: ffill_from r t
  end.

Definition ffill (df : DataFrame) : DataFrame :=
  {| columns := columns df; rows := ffill_rows (rows df) |}.

(** ** Row validation: the [DailyMetrics] built from [row.to_dict]

    Keys that are not fields of the model are ignored.  A [float] field
    accepts every float, NaN and the infinities included; [volume] is
    [Optional[int]] and rejects NaN; then [validate_prices] runs. *)
Definition validate_volume (c : vcell) : result (option Z) :=
  match c with
  | VInt v => ret (Some v)
  | VNone => ret None
  | VNaN => raise (ValidationError "Input should be a finite number")
  end.

Definition validate_prices (m : DailyMetrics) : result DailyMetrics :=
  if flt (dm_high m) (dm_low m)
  then raise (ValidationError "High must be >= Low")
  else ret m.

Definition DailyMetrics_of_row (r : Row) : result DailyMetrics :=
  v <- validate_volume (volume r) ;;
  validate_prices
    (mkDailyMetrics (ticker r) (date r) (open r) (high r) (low r) (close r) v
       (sma_50 r) (sma_200 r) (high_52w r) (pct_from_52w_high r)
       (book_value_per_share r) (price_to_book r) (enterprise_value r)).

(** A logged warning: the date of the rejected row and the error. *)
Definition warning : Type := (Z * exn)%type.

(** The loop over [merged.iterrows()]: a row that fails validation is
    logged and skipped. *)
Fixpoint validate_rows (rs : list Row) : list DailyMetrics * list warning :=
  match rs with
  | [] => ([], [])
  | r :: t =>
      let '(records, warnings) := validate_rows t in
      match DailyMetrics_of_row r with
      | inr m => (m :: records, warnings)
      | inl e => (records, (date r, e) :: warnings)
      end
  end.

(** The table of [process_data] before row validation (lines 72 to 88). *)
Definition computed_table (raw : RawData) : result DataFrame :=
  let prices := frame_of_bars (rd_prices raw) in
  merged <-
    match rd_fundamentals raw with
    | Some fund =>
        ds <- getitem "date" date prices ;;
        let merged := merge_left prices fund (date_min ds) in
        merged <- sort_values_date merged ;;
        ret (ffill merged)
    | None => ret prices
    end ;;
  merged <- _compute_indicators merged ;;
  merged <- _compute_fundamentals merged ;;
  ret (setitem "ticker" set_ticker
         (map (fun _ => rd_ticker raw) (rows merged)) merged).

Definition process_data (raw : RawData) : result (list warning * DataFrame) :=
  merged <- computed_table raw ;;
  let '(records, warnings) := validate_rows (rows merged) in
  ret (warnings, frame_of_metrics records).

(* ================================================================== *)
(** * signals.py *)

(** [Series.shift(1)]. *)
Definition shift1 (xs : list float) : list float :=
  match xs with
  | [] => []
  | _ :: _ => NaN :: removelast xs
  end.

(** [df.loc[cond, c].tolist()]: the cells of a column at the positions
    where the mask holds. *)
Fixpoint select {A} (cond : list bool) (xs : list A) : list A :=
  match cond, xs with
  | c :: cond', x :: xs' => if c then x :: select cond' xs' else select cond' xs'
  | _, _ => []
  end.

(** A comparison with NaN is [False], so the mask [cond] is already
    boolean and [cond.fillna(False)] leaves it as it is;
    [pd.to_datetime(d).date()] returns the date it is given. *)
Definition detect_golden_crossover (df : DataFrame) : result (list Z) :=
  s50 <- getitem "sma_50" sma_50 df ;;
  s200 <- getitem "sma_200" sma_200 df ;;
  let cond := map2 andb (map2 fgt s50 s200)
                        (map2 fle (shift1 s50) (shift1 s200)) in
  ds <- getitem "date" date df ;;
  ret (select cond ds).

Definition detect_death_crossover (df : DataFrame) : result (list Z) :=
  s50 <- getitem "sma_50" sma_50 df ;;
  s200 <- getitem "sma_200" sma_200 df ;;
  let cond := map2 andb (map2 flt s50 s200)
                        (map2 fge (shift1 s50) (shift1 s200)) in
  ds <- getitem "date" date df ;;
  ret (select cond ds).

(* ================================================================== *)
(** * The specification's reading of the detectors

    Section 4.3 states the two conditions by row index; these follow its
    words, with null as NaN and with row 0 excluded for want of a
    predecessor. *)
Definition cell (xs : list float) (i : nat) : float := nth i xs NaN.

Definition golden_at (s50 s200 : list float) (i : nat) : bool :=
  match i with
  | O => false
  | S j => fgt (cell s50 i) (cell s200 i) && fle (cell s50 j) (cell s200 j)
  end.

Definition death_at (s50 s200 : list float) (i : nat) : bool :=
  match i with
  | O => false
  | S j => flt (cell s50 i) (cell s200 i) && fge (cell s50 j) (cell s200 j)
  end.

(** The dates of the rows whose index satisfies [p], in table order. *)
Definition dates_where (p : nat -> bool) (ds : list Z) : list Z :=
  map (fun i => nth i ds 0) (filter p (seq 0 (length ds))).

(** The arithmetic mean of a list of numbers. *)
Definition mean (qs : list Qc) : Qc := (Qcsum qs / qnat (length qs))%Qc.


(* ================================================================== *)
(** * Auxiliary definitions for the proofs *)

(** The predecessors of the cells of a column, the first one being [x];
    [shift1 a] is [prevs NaN a]. *)
Fixpoint prevs (x : float) (a : list float) : list float :=
  match a with
  | [] => []
  | a0 :: a' => x :: prevs a0 a'
  end.

(** Both detectors are one scan, for their pair of comparisons. *)
Definition mask_from (cmp_now cmp_prev : float -> float -> bool)
    (x y : float) (a b : list float) : list bool :=
  map2 andb (map2 cmp_now a b) (map2 cmp_prev (prevs x a) (prevs y b)).

Definition crossed_from (cmp_now cmp_prev : float -> float -> bool)
    (x y : float) (a b : list float) (i : nat) : bool :=
  cmp_now (cell a i) (cell b i)
  && cmp_prev (match i with O => x | S j => cell a j end)
              (match i with O => y | S j => cell b j end).

(* ================================================================== *)
(** * Concrete inputs used as examples *)

Definition bar (d : Z) (o h l c : Z) (v : option Z) : PriceBar :=
  mkPriceBar d (Fin (qz o)) (Fin (qz h)) (Fin (qz l)) (Fin (qz c)) v.

(** A frame holding only the three columns the detectors read. *)
Definition sma_row (d : Z) (s50 s200 : float) : Row :=
  mkRow d NaN NaN NaN NaN VNone NaN NaN NaN NaN NaN NaN s50 s200
    NaN NaN NaN NaN "".

Definition sma_frame (rs : list Row) : DataFrame :=
  {| columns := ["date"; "sma_50"; "sma_200"]; rows := rs |}.

(** The table of [tests/test_signals.py]. *)
Definition crossover_table : DataFrame :=
  sma_frame
    [sma_row 1 (Fin (qz 1)) (Fin (qz 2)); sma_row 2 (Fin (qz 1)) (Fin (qz 2));
     sma_row 3 (Fin (qz 2)) (Fin (qz 1)); sma_row 4 (Fin (qz 2)) (Fin (qz 1));
     sma_row 5 (Fin (qz 1)) (Fin (qz 2))].

(** Map with the position of each element, counted from [k]. *)
Fixpoint imap_from {A B} (k : nat) (f : nat -> A -> B) (l : list A) : list B :=
  match l with
  | [] => []
  | x :: t => f k x :: imap_from (S k) f t
  end.

(** Row [i] of the table [_compute_indicators] returns, from row [i] of
    the date-sorted input and the sorted [close] and [high] columns. *)
Definition indicator_row (cs hs : list float) (i : nat) (r : Row) : Row :=
  let h := roll_max 20 (window 252 i hs) in
  set_pct_from_52w_high (pct_expr (close r) h)
    (set_high_52w h
       (set_sma_200 (roll_mean 20 (window 200 i cs))
          (set_sma_50 (roll_mean 10 (window 50 i cs)) r))).

Definition indicator_columns (cs : list string) : list string :=
  add_column "pct_from_52w_high"
    (add_column "high_52w" (add_column "sma_200" (add_column "sma_50" cs))).


(** The order of the table: ascending dates. *)
Definition date_le (a b : Row) : Prop := date a <= date b.

(** [m] is the maximum of the numbers [l]. *)
Definition is_maximum (m : Qc) (l : list Qc) : Prop :=
  In m l /\ forall x, In x l -> (x <= m)%Qc.

(** The synthetic series of [tests/test_processor.py]: bar [i] closes at
    [i], with high [i + 1], low [i - 1] and volume 1000. *)
Definition rising_bars (n : nat) : list PriceBar :=
  map (fun i => let z := Z.of_nat i in bar z z (z + 1) (z - 1) z (Some 1000))
      (seq 0 n).

(** Bars that trade at zero throughout. *)
Definition zero_bars (n : nat) : list PriceBar :=
  map (fun i => bar (Z.of_nat i) 0 0 0 0 (Some 1000)) (seq 0 n).

(** The cell of column [c] in row [r] of [df], or NaN when [df] has no
    such column: [df.get(c, nan_series)] at one row. *)
Definition cell_or_nan (df : DataFrame) (c : string) (p : Row -> float)
    (r : Row) : float :=
  if has_column c df then p r else NaN.

(** What [_compute_fundamentals] makes of one row of [df]. *)
Definition bvps_of (df : DataFrame) (r : Row) : float :=
  if has_column "total_shareholder_equity" df
     && has_column "shares_outstanding" df
  then bvps_expr (shares_outstanding r) (total_shareholder_equity r)
  else cell_or_nan df "book_value" book_value r.

Definition ev_of (df : DataFrame) (r : Row) : float :=
  fsub (fadd (if has_column "shares_outstanding" df
              then fmul (shares_outstanding r) (close r) else NaN)
             (cell_or_nan df "total_debt" total_debt r))
       (cell_or_nan df "cash_and_short_term_investments"
          cash_and_short_term_investments r).

Definition recomputes_ev (df : DataFrame) : bool :=
  negb (has_column "enterprise_value" df)
  || forallb isna (map enterprise_value (rows df)).

Definition fundamentals_row (df : DataFrame) (r : Row) : Row :=
  let b := bvps_of df r in
  let r' := set_price_to_book (ptb_expr (close r) b)
              (set_book_value_per_share b r) in
  if recomputes_ev df then set_enterprise_value (ev_of df r) r' else r'.

(** The frame [process_data] hands to [_compute_indicators]. *)
Definition merged_frame (raw : RawData) : DataFrame :=
  let prices := frame_of_bars (rd_prices raw) in
  match rd_fundamentals raw with
  | Some fund =>
      ffill {| columns := columns prices ++ fundamentals_columns;
               rows := sort_by_date
                         (rows (merge_left prices fund
                                  (date_min (map date (rows prices))))) |}
  | None => prices
  end.

(** A row carries the snapshot [f], or carries no fundamentals at all. *)
Definition carries (f : RawFundamentals) (r : Row) : Prop :=
  total_shareholder_equity r = float_of_decimal (rf_total_shareholder_equity f)
  /\ shares_outstanding r = float_of_int (rf_shares_outstanding f)
  /\ total_debt r = float_of_decimal (rf_total_debt f)
  /\ cash_and_short_term_investments r
     = float_of_decimal (rf_cash_and_short_term_investments f)
  /\ book_value r = float_of_decimal (rf_book_value f)
  /\ enterprise_value r = float_of_decimal (rf_enterprise_value f).

Definition blank (r : Row) : Prop :=
  total_shareholder_equity r = NaN
  /\ shares_outstanding r = NaN
  /\ total_debt r = NaN
  /\ cash_and_short_term_investments r = NaN
  /\ book_value r = NaN
  /\ enterprise_value r = NaN.

(** The row a validated record came from passes both checks. *)
Definition row_ok (r : Row) : bool :=
  match DailyMetrics_of_row r with inr _ => true | inl _ => false end.

Definition volume_of_cell (c : vcell) : option Z :=
  match c with VInt v => Some v | _ => None end.

Definition metrics_of_row (r : Row) : DailyMetrics :=
  mkDailyMetrics (ticker r) (date r) (open r) (high r) (low r) (close r)
    (volume_of_cell (volume r))
    (sma_50 r) (sma_200 r) (high_52w r) (pct_from_52w_high r)
    (book_value_per_share r) (price_to_book r) (enterprise_value r).

(** The frame [process_data] hands to [_compute_fundamentals]: the
    merged frame in date order with its indicator columns. *)
Definition indicator_frame (raw : RawData) : DataFrame :=
  let m := merged_frame raw in
  let s := sort_by_date (rows m) in
  {| columns := indicator_columns (columns m);
     rows := imap_from 0 (indicator_row (map close s) (map high s)) s |}.

(** The row of the final table that a computed row becomes. *)
Definition output_row (numeric : bool) (r : Row) : Row :=
  row_of_metrics numeric (metrics_of_row r).

(** Book value per share and enterprise value as the code derives them
    from a snapshot, at a row that closes at [c]. *)
Definition snapshot_bvps (f : RawFundamentals) : float :=
  bvps_expr (float_of_int (rf_shares_outstanding f))
            (float_of_decimal (rf_total_shareholder_equity f)).

Definition snapshot_ev (f : RawFundamentals) (c : float) : float :=
  fsub (fadd (fmul (float_of_int (rf_shares_outstanding f)) c)
             (float_of_decimal (rf_total_debt f)))
       (float_of_decimal (rf_cash_and_short_term_investments f)).


Definition book_value_only : RawFundamentals :=
  mkRawFundamentals None None None None (Some (qz 5)) None.








(* ================================================================== *)
(** * main.py: the export payload built by [run] *)

Record SignalEvent : Type := mkSignalEvent {
  se_ticker : string;
  se_date : Z;
  se_signal_type : string
}.



(** [df.empty]: no rows, or no columns. *)
Definition df_empty (df : DataFrame) : bool :=
  match columns df, rows df with
  | [], _ | _, [] => true
  | _, _ => false
  end.







(* ================================================================== *)
(** * database.py

    A table is the list of its rows in [id] order.  The [id] column is an
    [INTEGER PRIMARY KEY]: a new row receives the largest [id] in the
    table plus one.  A float column holds NaN for SQL [NULL]. *)

Definition next_id (ids : list Z) : Z := 1 + fold_right Z.max 0 ids.

(** ** [daily_metrics], unique on [(ticker_symbol, date)] *)

Record DailyMetric : Type := mkDailyMetric {
  dmr_id : Z;
  dmr_values : DailyMetrics
}.

Definition metric_key (m : DailyMetrics) : string * Z := (dm_ticker m, dm_date m).

Definition key_eqb (a b : string * Z) : bool :=
  (fst a =? fst b)%string && (snd a =? snd b).

(** [INSERT ... ON CONFLICT (ticker_symbol, date) DO UPDATE SET] every
    value column to the new value. *)
Definition upsert_daily_metric (v : DailyMetrics) (tbl : list DailyMetric)
  : list DailyMetric :=
  if existsb (fun row => key_eqb (metric_key (dmr_values row)) (metric_key v)) tbl
  then map (fun row =>
              if key_eqb (metric_key (dmr_values row)) (metric_key v)
              then mkDailyMetric (dmr_id row) v
              else row) tbl
  else tbl ++ [mkDailyMetric (next_id (map dmr_id tbl)) v].

(** The values [save_daily_metrics] binds for one row of the frame:
    [row["ticker"]] and [row["date"]], [row.get(c)] for the floats, and
    the volume as an integer when it is not missing. *)
Definition metric_values (df : DataFrame) (r : Row) : DailyMetrics :=
  mkDailyMetrics (ticker r) (date r)
    (cell_or_nan df "open" open r) (cell_or_nan df "high" high r)
    (cell_or_nan df "low" low r) (cell_or_nan df "close" close r)
    (if has_column "volume" df then volume_of_cell (volume r) else None)
    (cell_or_nan df "sma_50" sma_50 r) (cell_or_nan df "sma_200" sma_200 r)
    (cell_or_nan df "high_52w" high_52w r)
    (cell_or_nan df "pct_from_52w_high" pct_from_52w_high r)
    (cell_or_nan df "book_value_per_share" book_value_per_share r)
    (cell_or_nan df "price_to_book" price_to_book r)
    (cell_or_nan df "enterprise_value" enterprise_value r).

(** [save_daily_metrics]: nothing for an empty frame; otherwise one
    upsert per row, committed together.  A frame without a [ticker] or
    [date] column raises at its first row, before anything is written. *)
Definition save_daily_metrics (tbl : list DailyMetric) (df : DataFrame)
  : result (list DailyMetric) :=
  if df_empty df then ret tbl
  else if negb (has_column "ticker" df) then raise (KeyError "ticker")
  else if negb (has_column "date" df) then raise (KeyError "date")
  else ret (fold_left (fun t r => upsert_daily_metric (metric_values df r) t)
              (rows df) tbl).

(** The table holds [v] under its key: some row has that key, and every
    row with that key has exactly the values [v]. *)
Definition holds (tbl : list DailyMetric) (v : DailyMetrics) : Prop :=
  (exists row, In row tbl /\ dmr_values row = v)
  /\ forall row, In row tbl ->
       metric_key (dmr_values row) = metric_key v -> dmr_values row = v.

(** ** [signal_events], unique on [(ticker_symbol, date, signal_type)] *)

Record SignalRow : Type := mkSignalRow {
  sr_id : Z;
  sr_event : SignalEvent
}.

Definition event_eqb (a b : SignalEvent) : bool :=
  (se_ticker a =? se_ticker b)%string && (se_date a =? se_date b)
  && (se_signal_type a =? se_signal_type b)%string.

(** [INSERT ... ON CONFLICT (ticker_symbol, date, signal_type) DO NOTHING]. *)
Definition insert_or_ignore (e : SignalEvent) (tbl : list SignalRow)
  : list SignalRow :=
  if existsb (fun row => event_eqb (sr_event row) e) tbl
  then tbl
  else tbl ++ [mkSignalRow (next_id (map sr_id tbl)) e].

Definition save_signal_events (tbl : list SignalRow) (symbol : string)
    (dates : list Z) (signal_type : string) : list SignalRow :=
  fold_left (fun t d => insert_or_ignore (mkSignalEvent symbol d signal_type) t)
            dates tbl.

(** A small frame with the columns [save_daily_metrics] needs, and a
    table that already holds a row for one of its dates. *)
Definition two_day_frame : DataFrame :=
  {| columns := ["ticker"; "date"; "close"];
     rows := [set_ticker "T" (row_of_bar false (bar 1 1 1 1 1 None));
              set_ticker "T" (row_of_bar false (bar 2 2 2 2 2 None))] |}.

Definition stale_table : list DailyMetric :=
  [mkDailyMetric 7
     (mkDailyMetrics "T" 2 NaN NaN NaN NaN None NaN NaN NaN NaN NaN NaN NaN)].

(** ** [tickers], unique on [symbol] *)

Record Ticker : Type := mkTicker {
  tk_id : Z;
  tk_symbol : string;
  tk_market : option string;
  tk_name : option string;
  tk_currency : option string
}.

(** [upsert_ticker]: [INSERT ... ON CONFLICT (symbol) DO UPDATE SET]
    market, name and currency to the new values. *)
Definition upsert_ticker (tbl : list Ticker) (symbol : string)
    (market name currency : option string) : list Ticker :=
  if existsb (fun row => (tk_symbol row =? symbol)%string) tbl
  then map (fun row =>
              if (tk_symbol row =? symbol)%string
              then mkTicker (tk_id row) (tk_symbol row) market name currency
              else row) tbl
  else (tbl ++ [mkTicker (next_id (map tk_id tbl)) symbol market name currency])%list.
(* ================================================================== *)
(** * Lists *)

Lemma map2_map_map {A B C D} (f : B -> C -> D) (p : A -> B) (q : A -> C) l :
  map2 f (map p l) (map q l) = map (fun x => f (p x) (q x)) l.
Proof. induction l; simpl; congruence. Qed.

Lemma map2_map_self {A B} (set : A -> B -> B) (g : B -> A) l :
  map2 set (map g l) l = map (fun x => set (g x) x) l.
Proof. induction l; simpl; congruence. Qed.

Lemma filter_map_comm {A B} (p : B -> bool) (f : A -> B) l :
  filter p (map f l) = map f (filter (fun x => p (f x)) l).
Proof.
  induction l as [|a l IH]; simpl; auto.
  destruct (p (f a)); simpl; congruence.
Qed.

Lemma removelast_prevs a0 a : removelast (a0 :: a) = prevs a0 a.
Proof.
  revert a0; induction a as [|a1 a IH]; intros a0; auto.
  change (removelast (a0 :: a1 :: a)) with (a0 :: removelast (a1 :: a)).
  now rewrite IH.
Qed.

Lemma shift1_prevs a : shift1 a = prevs NaN a.
Proof. destruct a; [reflexivity|]. unfold shift1. now rewrite removelast_prevs. Qed.

(* ================================================================== *)
(** * Floats: facts about the comparisons *)

Lemma flt_NaN_l x : flt NaN x = false.
Proof. reflexivity. Qed.

Lemma flt_NaN_r x : flt x NaN = false.
Proof. destruct x; reflexivity. Qed.

Lemma fle_NaN_l x : fle NaN x = false.
Proof. reflexivity. Qed.

Lemma fle_NaN_r x : fle x NaN = false.
Proof. destruct x; reflexivity. Qed.

Lemma flt_asym x y : flt x y = true -> flt y x = false.
Proof.
  destruct x as [a| | |], y as [b| | |]; simpl; try reflexivity;
    try discriminate.
  unfold flt; simpl. unfold Qccompare.
  rewrite <- (Qcompare_antisym a b).
  destruct (Qcompare a b); simpl; auto; discriminate.
Qed.

(* ================================================================== *)
(** * signals.py: the detectors against the specification's reading *)

Section Detectors.

Variables (cmp_now cmp_prev : float -> float -> bool).

Lemma select_mask_from (rs : list Row) x y :
  select (mask_from cmp_now cmp_prev x y (map sma_50 rs) (map sma_200 rs))
    (map date rs)
  = dates_where
      (crossed_from cmp_now cmp_prev x y (map sma_50 rs) (map sma_200 rs))
      (map date rs).
Proof.
  revert x y; induction rs as [|r rs IH]; intros x y; auto.
  specialize (IH (sma_50 r) (sma_200 r)).
  unfold dates_where, mask_from in *.
  cbn [map prevs map2 select length seq filter].
  rewrite <- seq_shift, filter_map_comm.
  rewrite (filter_ext
    (fun i => crossed_from cmp_now cmp_prev x y (sma_50 r :: map sma_50 rs)
                (sma_200 r :: map sma_200 rs) (S i))
    (crossed_from cmp_now cmp_prev (sma_50 r) (sma_200 r) (map sma_50 rs)
       (map sma_200 rs))) by (intros [|i]; reflexivity).
  rewrite IH.
  change (crossed_from cmp_now cmp_prev x y (sma_50 r :: map sma_50 rs)
            (sma_200 r :: map sma_200 rs) 0)
    with (cmp_now (sma_50 r) (sma_200 r) && cmp_prev x y).
  destruct (cmp_now (sma_50 r) (sma_200 r) && cmp_prev x y);
    cbn [map nth]; rewrite map_map; reflexivity.
Qed.

End Detectors.

Lemma golden_at_crossed a b i :
  golden_at a b i = crossed_from fgt fle NaN NaN a b i.
Proof.
  destruct i; unfold golden_at, crossed_from; auto.
  now rewrite fle_NaN_l, andb_false_r.
Qed.

Lemma death_at_crossed a b i :
  death_at a b i = crossed_from flt fge NaN NaN a b i.
Proof.
  destruct i; unfold death_at, crossed_from; auto.
  unfold fge. now rewrite fle_NaN_r, andb_false_r.
Qed.

Lemma has_columns_cons c cs df :
  has_columns (c :: cs) df = true ->
  has_column c df = true /\ has_columns cs df = true.
Proof. unfold has_columns; simpl. apply andb_true_iff. Qed.

Lemma getitem_ok {A} c (p : Row -> A) df :
  has_column c df = true -> getitem c p df = inr (map p (rows df)).
Proof. unfold getitem; now intros ->. Qed.

Lemma detect_golden_crossover_spec df :
  has_columns ["date"; "sma_50"; "sma_200"] df = true ->
  detect_golden_crossover df
  = inr (dates_where (golden_at (map sma_50 (rows df)) (map sma_200 (rows df)))
           (map date (rows df))).
Proof.
  intros H. apply has_columns_cons in H as [Hd H].
  apply has_columns_cons in H as [H50 H]. apply has_columns_cons in H as [H200 _].
  unfold detect_golden_crossover.
  rewrite (getitem_ok _ _ _ H50), (getitem_ok _ _ _ H200), (getitem_ok _ _ _ Hd).
  simpl bind. unfold ret. f_equal.
  rewrite !shift1_prevs.
  change (select (mask_from fgt fle NaN NaN (map sma_50 (rows df))
                    (map sma_200 (rows df))) (map date (rows df)) = 
          dates_where (golden_at (map sma_50 (rows df)) (map sma_200 (rows df)))
            (map date (rows df))).
  rewrite select_mask_from. unfold dates_where. f_equal.
  apply filter_ext. intros i. now rewrite golden_at_crossed.
Qed.

Lemma detect_death_crossover_spec df :
  has_columns ["date"; "sma_50"; "sma_200"] df = true ->
  detect_death_crossover df
  = inr (dates_where (death_at (map sma_50 (rows df)) (map sma_200 (rows df)))
           (map date (rows df))).
Proof.
  intros H. apply has_columns_cons in H as [Hd H].
  apply has_columns_cons in H as [H50 H]. apply has_columns_cons in H as [H200 _].
  unfold detect_death_crossover.
  rewrite (getitem_ok _ _ _ H50), (getitem_ok _ _ _ H200), (getitem_ok _ _ _ Hd).
  simpl bind. unfold ret. f_equal.
  rewrite !shift1_prevs.
  change (select (mask_from flt fge NaN NaN (map sma_50 (rows df))
                    (map sma_200 (rows df))) (map date (rows df)) = 
          dates_where (death_at (map sma_50 (rows df)) (map sma_200 (rows df)))
            (map date (rows df))).
  rewrite select_mask_from. unfold dates_where. f_equal.
  apply filter_ext. intros i. now rewrite death_at_crossed.
Qed.

Lemma in_dates_where p ds d :
  In d (dates_where p ds) <->
  exists i, (i < length ds)%nat /\ nth i ds 0 = d /\ p i = true.
Proof.
  unfold dates_where. rewrite in_map_iff. split.
  - intros (i & E & Hi). apply filter_In in Hi as [Hi Hp].
    apply in_seq in Hi. exists i; repeat split; auto; lia.
  - intros (i & Hi & E & Hp). exists i; split; auto.
    apply filter_In; split; auto. apply in_seq; lia.
Qed.

(* ================================================================== *)
(** * Positional maps *)

Lemma imap_from_ext {A B} (f g : nat -> A -> B) k l :
  (forall i x, f i x = g i x) -> imap_from k f l = imap_from k g l.
Proof.
  intros E; revert k; induction l as [|x l IH]; intros k; simpl; auto.
  now rewrite E, IH.
Qed.

Lemma imap_from_id {A} k (l : list A) : imap_from k (fun _ x => x) l = l.
Proof. revert k; induction l; intros k; simpl; congruence. Qed.

Lemma imap_from_length {A B} (f : nat -> A -> B) k l :
  length (imap_from k f l) = length l.
Proof. revert k; induction l; intros k; simpl; auto. Qed.

Lemma map_imap_from {A B C} (p : B -> C) (f : nat -> A -> B) k l :
  map p (imap_from k f l) = imap_from k (fun i x => p (f i x)) l.
Proof. revert k; induction l; intros k; simpl; congruence. Qed.

Lemma imap_from_const {A B} (q : A -> B) k l :
  imap_from k (fun _ x => q x) l = map q l.
Proof. revert k; induction l; intros k; simpl; congruence. Qed.

Lemma imap_from_proj {A B} (f : nat -> A -> B) (q : A -> B) k l :
  (forall i x, f i x = q x) -> imap_from k f l = map q l.
Proof.
  intros E. rewrite (imap_from_ext f (fun _ x => q x)) by exact E.
  apply imap_from_const.
Qed.

Lemma map2_seq_imap_from {A B C} (set : C -> B -> B) (g : nat -> C)
    (f : nat -> A -> B) k l :
  map2 set (map g (seq k (length l))) (imap_from k f l)
  = imap_from k (fun i x => set (g i) (f i x)) l.
Proof. revert k; induction l; intros k; simpl; congruence. Qed.

Lemma nth_error_imap_from {A B} (f : nat -> A -> B) k l i :
  nth_error (imap_from k f l) i = option_map (f (k + i)%nat) (nth_error l i).
Proof.
  revert k i; induction l as [|x l IH]; intros k [|i]; simpl; auto.
  - now rewrite Nat.add_0_r.
  - rewrite IH. now rewrite Nat.add_succ_r.
Qed.

Lemma in_imap_from {A B} (f : nat -> A -> B) k l y :
  In y (imap_from k f l) ->
  exists i x, nth_error l i = Some x /\ y = f (k + i)%nat x.
Proof.
  intros H. apply In_nth_error in H as [i H].
  rewrite nth_error_imap_from in H.
  destruct (nth_error l i) as [x|] eqn:E; [|discriminate].
  exists i, x. split; auto. now injection H.
Qed.

(* ================================================================== *)
(** * Columns *)

Lemma has_column_add c c' cs :
  (if in_dec string_dec c (add_column c' cs) then true else false)
  = (if in_dec string_dec c cs then true else false) || (c =? c')%string.
Proof.
  unfold add_column.
  destruct (in_dec string_dec c' cs) as [H'|H'].
  - destruct (in_dec string_dec c cs) as [H|H]; auto.
    destruct (String.eqb_spec c c'); auto. subst; contradiction.
  - destruct (in_dec string_dec c (cs ++ [c'])) as [H|H];
      destruct (in_dec string_dec c cs) as [G|G]; simpl; auto.
    + apply in_app_or in H as [H|[H|[]]]; [contradiction|].
      subst. now rewrite String.eqb_refl.
    + exfalso; apply H, in_or_app; auto.
    + destruct (String.eqb_spec c c'); auto.
      subst. exfalso; apply H, in_or_app; right; left; auto.
Qed.

Lemma has_column_setitem {A} c c' (set : A -> Row -> Row) vs df :
  has_column c (setitem c' set vs df) = has_column c df || (c =? c')%string.
Proof. unfold has_column, setitem; simpl. apply has_column_add. Qed.

(* ================================================================== *)
(** * processor.py: the closed form of [_compute_indicators] *)

Lemma rolling_imap w agg xs :
  rolling w agg xs = map (fun i => agg (window w i xs)) (seq 0 (length xs)).
Proof. reflexivity. Qed.

Lemma _compute_indicators_rows df :
  has_columns ["date"; "close"; "high"] df = true ->
  let s := sort_by_date (rows df) in
  _compute_indicators df
  = inr {| columns := indicator_columns (columns df);
           rows := imap_from 0 (indicator_row (map close s) (map high s)) s |}.
Proof.
  intros H s. apply has_columns_cons in H as [Hd H].
  apply has_columns_cons in H as [Hc H]. apply has_columns_cons in H as [Hh _].
  unfold _compute_indicators, sort_values_date. rewrite Hd.
  cbv beta iota delta [bind ret]. fold s.
  set (df0 := {| columns := columns df; rows := s |}).
  assert (Hc0 : has_column "close" df0 = true) by exact Hc.
  assert (Hh0 : has_column "high" df0 = true) by exact Hh.
  rewrite (getitem_ok _ _ _ Hc0). cbv beta iota delta [bind ret].
  set (df1 := setitem "sma_50" _ _ df0).
  assert (R1 : rows df1
               = imap_from 0 (fun i r => set_sma_50
                   (roll_mean 10 (window 50 i (map close s))) r) s).
  { unfold df1, setitem; simpl rows. rewrite rolling_imap, length_map.
    rewrite <- (imap_from_id 0 s) at 2.
    now rewrite map2_seq_imap_from. }
  assert (Hc1 : has_column "close" df1 = true).
  { unfold df1. now rewrite has_column_setitem, Hc0. }
  assert (Hh1 : has_column "high" df1 = true).
  { unfold df1. now rewrite has_column_setitem, Hh0. }
  assert (K1 : columns df1 = add_column "sma_50" (columns df)) by reflexivity.
  clearbody df1. clear df0 Hc0 Hh0.
  rewrite (getitem_ok _ _ _ Hc1). cbv beta iota delta [bind ret].
  set (df2 := setitem "sma_200" _ _ df1).
  assert (R2 : rows df2
               = imap_from 0 (fun i r => set_sma_200
                   (roll_mean 20 (window 200 i (map close s)))
                   (set_sma_50 (roll_mean 10 (window 50 i (map close s))) r)) s).
  { unfold df2, setitem; cbn [rows]. rewrite R1 at 1. rewrite map_imap_from.
    rewrite (imap_from_proj _ close) by reflexivity.
    rewrite rolling_imap, length_map, R1. now rewrite map2_seq_imap_from. }
  assert (Hc2 : has_column "close" df2 = true).
  { unfold df2. now rewrite has_column_setitem, Hc1. }
  assert (Hh2 : has_column "high" df2 = true).
  { unfold df2. now rewrite has_column_setitem, Hh1. }
  assert (K2 : columns df2
               = add_column "sma_200" (add_column "sma_50" (columns df))).
  { unfold df2, setitem; cbn [columns]. now rewrite K1. }
  clearbody df2. clear df1 R1 Hc1 Hh1 K1.
  rewrite (getitem_ok _ _ _ Hh2). cbv beta iota delta [bind ret].
  set (df3 := setitem "high_52w" _ _ df2).
  assert (R3 : rows df3
               = imap_from 0 (fun i r => set_high_52w
                   (roll_max 20 (window 252 i (map high s)))
                   (set_sma_200 (roll_mean 20 (window 200 i (map close s)))
                      (set_sma_50 (roll_mean 10 (window 50 i (map close s)))
                         r))) s).
  { unfold df3, setitem; cbn [rows]. rewrite R2 at 1. rewrite map_imap_from.
    rewrite (imap_from_proj _ high) by reflexivity.
    rewrite rolling_imap, length_map, R2. now rewrite map2_seq_imap_from. }
  assert (H52 : has_column "high_52w" df3 = true).
  { unfold df3. rewrite has_column_setitem. apply orb_true_r. }
  assert (Hc3 : has_column "close" df3 = true).
  { unfold df3. now rewrite has_column_setitem, Hc2. }
  assert (K3 : columns df3
               = add_column "high_52w"
                   (add_column "sma_200" (add_column "sma_50" (columns df)))).
  { unfold df3, setitem; cbn [columns]. now rewrite K2. }
  clearbody df3. clear df2 R2 Hc2 Hh2 K2.
  rewrite (getitem_ok _ _ _ H52). cbv beta iota delta [bind ret].
  rewrite (getitem_ok _ _ _ Hc3). cbv beta iota delta [bind ret].
  f_equal. unfold setitem, indicator_columns. rewrite K3. f_equal.
  rewrite map2_map_map, map2_map_self, R3, map_imap_from.
  apply imap_from_ext. reflexivity.
Qed.

(* ================================================================== *)
(** * Sorting by date *)

Lemma insert_by_date_perm r l : Permutation (insert_by_date r l) (r :: l).
Proof.
  induction l as [|h t IH]; simpl; auto.
  destruct (date r <=? date h); auto.
  rewrite IH. apply perm_swap.
Qed.

Lemma sort_by_date_perm l : Permutation (sort_by_date l) l.
Proof.
  induction l as [|r t IH]; simpl; auto.
  rewrite insert_by_date_perm. now constructor.
Qed.

Lemma sort_by_date_length l : length (sort_by_date l) = length l.
Proof. apply Permutation_length, sort_by_date_perm. Qed.

Lemma insert_by_date_sorted r l :
  StronglySorted date_le l -> StronglySorted date_le (insert_by_date r l).
Proof.
  induction 1 as [|h t Ht IH Hh]; simpl.
  - repeat constructor.
  - destruct (Z.leb_spec (date r) (date h)) as [L|L].
    + constructor; [now constructor|].
      constructor; auto.
      eapply Forall_impl; [|exact Hh]. unfold date_le; intros; lia.
    + constructor; auto.
      eapply Permutation_Forall; [symmetry; apply insert_by_date_perm|].
      constructor; auto. unfold date_le; lia.
Qed.

Lemma sort_by_date_sorted l : StronglySorted date_le (sort_by_date l).
Proof.
  induction l; simpl; [constructor | now apply insert_by_date_sorted].
Qed.



(* ================================================================== *)
(** * Windows and aggregates *)

Lemma window_map {A B} (f : A -> B) w i l :
  window w i (map f l) = map f (window w i l).
Proof. unfold window. now rewrite firstn_map, skipn_map. Qed.

Lemma window_length {A} w i (l : list A) :
  (i < length l)%nat -> length (window w i l) = Nat.min (S i) w.
Proof. intros H. unfold window. rewrite length_skipn, length_firstn. lia. Qed.

Lemma window_short {A} w i (l : list A) :
  (S i <= w)%nat -> window w i l = firstn (S i) l.
Proof.
  intros H. unfold window. now replace (S i - w)%nat with 0%nat by lia.
Qed.

Lemma window_whole {A} w (l : list A) :
  (1 <= length l <= w)%nat -> window w (length l - 1) l = l.
Proof.
  intros H. unfold window.
  replace (S (length l - 1) - w)%nat with 0%nat by lia.
  replace (S (length l - 1)) with (length l) by lia.
  cbn [skipn]. apply firstn_all.
Qed.

Lemma window_trailing {A} w i (l : list A) :
  (w <= S i)%nat -> window w i l = firstn w (skipn (S i - w) l).
Proof.
  intros H. unfold window. rewrite skipn_firstn_comm.
  f_equal. lia.
Qed.


Lemma finite_values_Fin qs : finite_values (map Fin qs) = qs.
Proof. induction qs; simpl; congruence. Qed.

Lemma finite_values_perm l l' :
  Permutation l l' -> Permutation (finite_values l) (finite_values l').
Proof.
  induction 1 as [|x l l' _ IH|x y l|l l' l'' _ IH1 _ IH2]; simpl; auto.
  - destruct x; auto.
  - destruct x, y; auto. apply perm_swap.
  - now transitivity (finite_values l').
Qed.

Lemma all_finite_perm l qs :
  Permutation l (map Fin qs) ->
  l = map Fin (finite_values l) /\ Permutation (finite_values l) qs.
Proof.
  intros P. split.
  - assert (F : Forall (fun x => is_finite x = true) l).
    { eapply Permutation_Forall; [symmetry; exact P|].
      apply Forall_forall. intros x Hx. apply in_map_iff in Hx as (q & <- & _).
      reflexivity. }
    clear P. induction F as [|x l Hx _ IH]; simpl; auto.
    destruct x; try discriminate. simpl. congruence.
  - rewrite <- (finite_values_Fin qs). now apply finite_values_perm.
Qed.

Lemma Qcsum_perm l l' : Permutation l l' -> Qcsum l = Qcsum l'.
Proof.
  induction 1 as [|x l l' _ IH|x y l|l l' l'' _ IH1 _ IH2]; simpl; auto.
  - now rewrite IH.
  - ring.
  - congruence.
Qed.

Lemma mean_perm l l' : Permutation l l' -> mean l = mean l'.
Proof.
  intros P. unfold mean.
  now rewrite (Qcsum_perm _ _ P), (Permutation_length P).
Qed.

Lemma roll_mean_Fin m qs :
  roll_mean m (map Fin qs)
  = if (m <=? length qs)%nat && (0 <? length qs)%nat
    then Fin (mean qs) else NaN.
Proof. unfold roll_mean. now rewrite finite_values_Fin. Qed.

Lemma Qcmax_cases a b :
  (Qcmax a b = a /\ (b <= a)%Qc) \/ (Qcmax a b = b /\ (a <= b)%Qc).
Proof.
  unfold Qcmax. destruct (a ?= b)%Qc eqn:E.
  - left; split; auto. apply Qceq_alt in E. subst. apply Qcle_refl.
  - right; split; auto. apply Qclt_le_weak, Qclt_alt, E.
  - left; split; auto. apply Qclt_le_weak. apply Qcgt_alt in E. exact E.
Qed.

Lemma Qcmaximum_spec q qs : is_maximum (Qcmaximum q qs) (q :: qs).
Proof.
  unfold Qcmaximum. revert q; induction qs as [|x qs IH]; intros q.
  - split; [left; auto|]. intros y [<-|[]]. apply Qcle_refl.
  - simpl fold_left. destruct (IH (Qcmax q x)) as [Hin Hle].
    assert (G : forall y, In y (Qcmax q x :: qs) ->
                          (y <= fold_left Qcmax qs (Qcmax q x))%Qc) by exact Hle.
    destruct (Qcmax_cases q x) as [[E L]|[E L]]; rewrite E in *.
    + split.
      * destruct Hin as [<-|Hin]; [left; auto|right; right; auto].
      * intros y [<-|[<-|Hy]].
        -- apply G; left; auto.
        -- eapply Qcle_trans; [exact L|]. apply G; left; auto.
        -- apply G; right; auto.
    + split.
      * destruct Hin as [<-|Hin]; [right; left; auto|right; right; auto].
      * intros y [<-|[<-|Hy]].
        -- eapply Qcle_trans; [exact L|]. apply G; left; auto.
        -- apply G; left; auto.
        -- apply G; right; auto.
Qed.

Lemma roll_max_Fin m qs :
  (1 <= m)%nat ->
  (roll_max m (map Fin qs) = NaN /\ (length qs < m)%nat)
  \/ (exists q, roll_max m (map Fin qs) = Fin q /\ is_maximum q qs
                /\ (m <= length qs)%nat).
Proof.
  intros Hm. unfold roll_max. rewrite finite_values_Fin.
  destruct qs as [|q qs].
  - left. split; [reflexivity | simpl; lia].
  - destruct (Nat.leb_spec m (S (length qs))) as [L|L].
    + right. exists (Qcmaximum q qs). split; [reflexivity|].
      split; [apply Qcmaximum_spec | simpl; lia].
    + left. split; [reflexivity | simpl; lia].
Qed.

Lemma roll_mean_window_Fin m w i cs :
  (1 <= m <= w)%nat -> (i < length cs)%nat ->
  roll_mean m (window w i (map Fin cs))
  = if (S i <? m)%nat then NaN else Fin (mean (window w i cs)).
Proof.
  intros Hm Hi. rewrite window_map, roll_mean_Fin, window_length by exact Hi.
  destruct (Nat.ltb_spec (S i) m) as [L|L].
  - replace (m <=? Nat.min (S i) w)%nat with false; auto.
    symmetry; apply Nat.leb_gt; lia.
  - replace (m <=? Nat.min (S i) w)%nat with true
      by (symmetry; apply Nat.leb_le; lia).
    replace (0 <? Nat.min (S i) w)%nat with true; auto.
    symmetry; apply Nat.ltb_lt; lia.
Qed.

Lemma roll_max_window_Fin m w i hs :
  (1 <= m <= w)%nat -> (i < length hs)%nat ->
  if (S i <? m)%nat
  then roll_max m (window w i (map Fin hs)) = NaN
  else exists q, roll_max m (window w i (map Fin hs)) = Fin q
                 /\ is_maximum q (window w i hs).
Proof.
  intros Hm Hi. rewrite window_map.
  pose proof (window_length w i hs Hi) as L.
  destruct (roll_max_Fin m (window w i hs)) as [[E N]|(q & E & M & N)];
    [lia| |]; destruct (Nat.ltb_spec (S i) m) as [G|G]; auto; try lia.
  exists q; auto.
Qed.

(** Row [i] of the result, for every frame the function accepts. *)
Lemma _compute_indicators_nth df :
  has_columns ["date"; "close"; "high"] df = true ->
  let s := sort_by_date (rows df) in
  exists out,
    _compute_indicators df = inr out
    /\ length (rows out) = length (rows df)
    /\ map date (rows out) = map date s
    /\ map close (rows out) = map close s
    /\ map high (rows out) = map high s
    /\ forall i,
         nth_error (rows out) i
         = option_map (indicator_row (map close s) (map high s) i)
             (nth_error s i).
Proof.
  intros H s. eexists. split; [apply _compute_indicators_rows, H|].
  cbn [rows]. fold s.
  split; [now rewrite imap_from_length; apply sort_by_date_length|].
  split; [rewrite map_imap_from; now apply imap_from_proj|].
  split; [rewrite map_imap_from; now apply imap_from_proj|].
  split; [rewrite map_imap_from; now apply imap_from_proj|].
  intros i. now rewrite nth_error_imap_from.
Qed.

Lemma nth_error_row {A} (l : list A) i x :
  nth_error l i = Some x -> (i < length l)%nat.
Proof. intros H. apply nth_error_Some. congruence. Qed.

Lemma pct_expr_finite c m :
  m <> 0%Qc ->
  pct_expr (Fin c) (Fin m) = Fin ((c / m - 1) * qz 100)%Qc.
Proof.
  intros Hm. unfold pct_expr, np_where, fdiv, Qcsign; simpl notna.
  destruct (m ?= 0)%Qc eqn:E; try reflexivity.
  apply Qceq_alt in E. contradiction.
Qed.



(* ================================================================== *)
(** * processor.py: the closed form of [_compute_fundamentals] *)

Lemma series_or_get df df' c p f :
  rows df' = map f (rows df) ->
  (forall r, p (f r) = p r) ->
  has_column c df' = has_column c df ->
  series_or (df_get c p df') (nan_series df')
  = map (cell_or_nan df c p) (rows df).
Proof.
  intros R E H. unfold df_get, nan_series, cell_or_nan. rewrite H, R, !map_map.
  destruct (has_column c df); simpl; auto.
  apply map_ext. exact E.
Qed.

Lemma bvps_series df :
  match df_get "total_shareholder_equity" total_shareholder_equity df,
        df_get "shares_outstanding" shares_outstanding df with
  | Some e, Some s => map2 bvps_expr s e
  | _, _ => series_or (df_get "book_value" book_value df) (nan_series df)
  end = map (bvps_of df) (rows df).
Proof.
  unfold bvps_of.
  rewrite (series_or_get df df _ _ (fun r => r))
    by (reflexivity || now rewrite map_id).
  unfold df_get.
  destruct (has_column "total_shareholder_equity" df),
           (has_column "shares_outstanding" df); simpl; auto.
  apply map2_map_map.
Qed.

Lemma market_cap_series df df' f :
  rows df' = map f (rows df) ->
  match df_get "shares_outstanding" shares_outstanding df with
  | Some s => map2 fmul s (map close (rows df))
  | None => nan_series df'
  end
  = map (fun r => if has_column "shares_outstanding" df
                  then fmul (shares_outstanding r) (close r) else NaN)
        (rows df).
Proof.
  intros R. unfold df_get, nan_series. rewrite R, map_map.
  destruct (has_column "shares_outstanding" df); auto.
  apply map2_map_map.
Qed.

Lemma _compute_fundamentals_rows df :
  has_column "close" df = true ->
  exists cs,
    _compute_fundamentals df
    = inr {| columns := cs; rows := map (fundamentals_row df) (rows df) |}.
Proof.
  intros Hc. unfold _compute_fundamentals.
  rewrite (getitem_ok _ _ _ Hc). cbv beta iota delta [bind ret].
  rewrite bvps_series.
  set (df1 := setitem "book_value_per_share" _ _ df).
  assert (R1 : rows df1
               = map (fun r => set_book_value_per_share (bvps_of df r) r)
                     (rows df)).
  { unfold df1, setitem; cbn [rows]. apply map2_map_self. }
  assert (C1 : forall c, has_column c df1
                         = has_column c df || (c =? "book_value_per_share")%string).
  { intros c. unfold df1. apply has_column_setitem. }
  clearbody df1.
  rewrite getitem_ok by (rewrite C1; apply orb_true_r).
  cbv beta iota delta [bind ret].
  set (df2 := setitem "price_to_book" _ _ df1).
  assert (R2 : rows df2
               = map (fun r => set_price_to_book
                                 (ptb_expr (close r) (bvps_of df r))
                                 (set_book_value_per_share (bvps_of df r) r))
                     (rows df)).
  { unfold df2, setitem; cbn [rows].
    rewrite R1, map_map, map2_map_map, map2_map_map.
    apply map_ext. reflexivity. }
  assert (C2 : forall c, has_column c df2
                         = has_column c df
                           || (c =? "book_value_per_share")%string
                           || (c =? "price_to_book")%string).
  { intros c. unfold df2. now rewrite has_column_setitem, C1. }
  clearbody df2. clear df1 R1 C1.
  assert (Rec : negb (has_column "enterprise_value" df2)
                || forallb isna (map enterprise_value (rows df2))
                = recomputes_ev df).
  { unfold recomputes_ev. rewrite C2, R2, map_map.
    change ("enterprise_value" =? "book_value_per_share")%string with false.
    change ("enterprise_value" =? "price_to_book")%string with false.
    rewrite !orb_false_r. f_equal. }
  rewrite Rec.
  unfold fundamentals_row.
  destruct (recomputes_ev df).
  - eexists. f_equal. unfold setitem. f_equal.
    rewrite (market_cap_series df df2 _ R2).
    rewrite !(series_or_get df df2 _ _ _ R2)
      by (reflexivity
          || (rewrite C2;
              match goal with
              | |- ?a || ?x || ?y = _ =>
                  change x with false; change y with false
              end; now rewrite !orb_false_r)).
    rewrite !map2_map_map, R2, map2_map_map.
    apply map_ext. reflexivity.
  - exists (columns df2). f_equal. destruct df2 as [cs2 rs2].
    cbn [rows columns] in *. now rewrite R2.
Qed.

(* ================================================================== *)
(** * processor.py: the pipeline *)

Lemma frame_of_bars_columns ps :
  ps <> [] -> columns (frame_of_bars ps) = price_columns.
Proof. destruct ps; [congruence | reflexivity]. Qed.

Lemma columns_merged_frame raw :
  rd_prices raw <> [] ->
  columns (merged_frame raw)
  = match rd_fundamentals raw with
    | Some _ => (price_columns ++ fundamentals_columns)%list
    | None => price_columns
    end.
Proof.
  intros H. unfold merged_frame.
  destruct (rd_fundamentals raw); cbn [columns ffill];
    now rewrite frame_of_bars_columns.
Qed.

Lemma has_column_eq c df cs :
  columns df = cs ->
  has_column c df = if in_dec string_dec c cs then true else false.
Proof. intros <-. reflexivity. Qed.

Lemma merged_frame_has_columns raw :
  rd_prices raw <> [] ->
  has_columns ["date"; "close"; "high"] (merged_frame raw) = true.
Proof.
  intros H. unfold has_columns. cbn [forallb].
  rewrite !(has_column_eq _ _ _ (columns_merged_frame raw H)).
  destruct (rd_fundamentals raw); reflexivity.
Qed.

Lemma computed_table_unfold raw :
  rd_prices raw <> [] ->
  computed_table raw
  = (m1 <- _compute_indicators (merged_frame raw) ;;
     m2 <- _compute_fundamentals m1 ;;
     ret (setitem "ticker" set_ticker
            (map (fun _ => rd_ticker raw) (rows m2)) m2)).
Proof.
  intros H. unfold computed_table, merged_frame.
  destruct (rd_fundamentals raw) as [f|]; auto.
  rewrite getitem_ok
    by (now rewrite (has_column_eq _ _ _ (frame_of_bars_columns _ H))).
  cbv beta iota delta [bind ret].
  unfold sort_values_date.
  replace (has_column "date" (merge_left (frame_of_bars (rd_prices raw)) f
             (date_min (map date (rows (frame_of_bars (rd_prices raw)))))))
    with true; auto.
  symmetry. unfold merge_left.
  erewrite has_column_eq
    by (cbn [columns]; now rewrite frame_of_bars_columns).
  reflexivity.
Qed.

Lemma computed_table_rows raw :
  rd_prices raw <> [] ->
  let m := merged_frame raw in
  let s := sort_by_date (rows m) in
  let dfI := {| columns := indicator_columns (columns m);
                rows := imap_from 0
                          (indicator_row (map close s) (map high s)) s |} in
  exists cs,
    computed_table raw
    = inr {| columns := cs;
             rows := map (fun r => set_ticker (rd_ticker raw)
                                     (fundamentals_row dfI r))
                         (rows dfI) |}.
Proof.
  intros H m s dfI. rewrite (computed_table_unfold raw H).
  rewrite (_compute_indicators_rows _ (merged_frame_has_columns raw H)).
  fold m s dfI. cbv beta iota delta [bind].
  assert (Hc : has_column "close" dfI = true).
  { unfold dfI, indicator_columns, has_column; cbn [columns].
    rewrite !has_column_add.
    change (if in_dec string_dec "close" (columns m) then true else false)
      with (has_column "close" m).
    pose proof (merged_frame_has_columns raw H) as G.
    apply has_columns_cons in G as [_ G]. apply has_columns_cons in G as [G _].
    fold m in G. now rewrite G. }
  destruct (_compute_fundamentals_rows dfI Hc) as (cs & E).
  rewrite E. eexists. unfold ret, setitem. f_equal. cbn [rows columns].
  f_equal. now rewrite map2_map_self, map_map.
Qed.

Lemma DailyMetrics_of_row_ok r m :
  DailyMetrics_of_row r = inr m -> m = metrics_of_row r.
Proof.
  unfold DailyMetrics_of_row, validate_volume, validate_prices, metrics_of_row.
  destruct (volume r); cbv beta iota delta [bind ret raise]; try discriminate;
    cbn [dm_high dm_low]; destruct (flt (high r) (low r)); try discriminate;
    now intros [= <-].
Qed.

Lemma validate_rows_filter rs :
  fst (validate_rows rs) = map metrics_of_row (filter row_ok rs)
  /\ map fst (snd (validate_rows rs))
     = map date (filter (fun r => negb (row_ok r)) rs).
Proof.
  induction rs as [|r rs [IH1 IH2]]; [split; reflexivity|].
  cbn [validate_rows filter].
  destruct (validate_rows rs) as [recs ws]. cbn [fst snd] in IH1, IH2.
  pose proof (eq_refl : row_ok r = match DailyMetrics_of_row r with
                                   | inr _ => true
                                   | inl _ => false
                                   end) as Ok.
  destruct (DailyMetrics_of_row r) as [e|m] eqn:E; rewrite Ok;
    cbn [negb fst snd map].
  - split; [exact IH1 | now rewrite IH2].
  - split; [|exact IH2]. rewrite IH1. f_equal.
    now apply DailyMetrics_of_row_ok.
Qed.


Lemma process_data_rows raw :
  rd_prices raw <> [] ->
  let m := merged_frame raw in
  let s := sort_by_date (rows m) in
  let dfI := {| columns := indicator_columns (columns m);
                rows := imap_from 0
                          (indicator_row (map close s) (map high s)) s |} in
  exists tbl ws out,
    computed_table raw = inr tbl
    /\ rows tbl = map (fun r => set_ticker (rd_ticker raw)
                                  (fundamentals_row dfI r)) (rows dfI)
    /\ process_data raw = inr (ws, out)
    /\ rows out
       = map (row_of_metrics
                (existsb is_some
                   (map dm_volume
                      (map metrics_of_row (filter row_ok (rows tbl))))))
             (map metrics_of_row (filter row_ok (rows tbl)))
    /\ map fst ws = map date (filter (fun r => negb (row_ok r)) (rows tbl)).
Proof.
  intros H m s dfI. destruct (computed_table_rows raw H) as (cs & E).
  fold m s dfI in E.
  match type of E with _ = inr ?t => remember t as tbl eqn:Et end.
  assert (R : rows tbl = map (fun r => set_ticker (rd_ticker raw)
                                  (fundamentals_row dfI r)) (rows dfI))
    by now subst tbl.
  clear Et. unfold process_data. rewrite E. cbv beta iota delta [bind].
  destruct (validate_rows_filter (rows tbl)) as [F1 F2].
  destruct (validate_rows (rows tbl)) as [recs ws].
  cbn [fst snd] in F1, F2. subst recs.
  exists tbl, ws. eexists. split; [reflexivity|]. split; [exact R|].
  split; [reflexivity|]. split; [reflexivity | exact F2].
Qed.




(* ================================================================== *)
(** * The as-of merge: every row ends up carrying the snapshot *)

Lemma fold_min_le ds d : fold_left Z.min ds d <= d.
Proof.
  revert d; induction ds as [|x ds IH]; intros d; simpl; [lia|].
  specialize (IH (Z.min d x)). lia.
Qed.

Lemma fold_min_lower ds d x : In x ds -> fold_left Z.min ds d <= x.
Proof.
  revert d; induction ds as [|y ds IH]; intros d [].
  - subst. simpl. pose proof (fold_min_le ds (Z.min d x)). lia.
  - simpl. now apply IH.
Qed.

Lemma fold_min_in ds d : fold_left Z.min ds d = d \/ In (fold_left Z.min ds d) ds.
Proof.
  revert d; induction ds as [|y ds IH]; intros d; simpl; auto.
  destruct (IH (Z.min d y)) as [E|E]; auto.
  rewrite E. destruct (Z.min_spec d y) as [[_ ->]|[_ ->]]; auto.
Qed.

Lemma date_min_lower ds x : In x ds -> date_min ds <= x.
Proof.
  destruct ds as [|d ds]; intros []; simpl.
  - subst. apply fold_min_le.
  - now apply fold_min_lower.
Qed.

Lemma date_min_in ds : ds <> [] -> In (date_min ds) ds.
Proof.
  destruct ds as [|d ds]; [congruence|]. intros _. simpl.
  destruct (fold_min_in ds d) as [->|H]; auto.
Qed.

Lemma ffill_float_carry v prev cur :
  prev = v -> cur = v \/ cur = NaN -> ffill_float prev cur = v.
Proof.
  intros -> [->| ->]; unfold ffill_float; auto.
  destruct v; reflexivity.
Qed.

Lemma ffill_row_carries f prev cur :
  carries f prev -> carries f cur \/ blank cur ->
  carries f (ffill_row prev cur).
Proof.
  intros (P1 & P2 & P3 & P4 & P5 & P6) H.
  unfold carries, ffill_row; cbn.
  destruct H as [(C1 & C2 & C3 & C4 & C5 & C6)|(C1 & C2 & C3 & C4 & C5 & C6)];
    repeat split; apply ffill_float_carry; auto.
Qed.

Lemma ffill_from_carries f prev l :
  carries f prev ->
  Forall (fun r => carries f r \/ blank r) l ->
  Forall (carries f) (ffill_from prev l).
Proof.
  intros Hp H; revert prev Hp; induction H as [|r l Hr _ IH]; intros prev Hp;
    simpl; constructor.
  - now apply ffill_row_carries.
  - apply IH. now apply ffill_row_carries.
Qed.

Lemma with_fundamentals_some f r : carries f (with_fundamentals (Some f) r).
Proof. repeat split. Qed.

Lemma with_fundamentals_none r : blank (with_fundamentals None r).
Proof. repeat split. Qed.

Lemma merged_rows_carry raw f :
  rd_prices raw <> [] ->
  rd_fundamentals raw = Some f ->
  Forall (carries f) (rows (merged_frame raw)).
Proof.
  intros Hp Hf. unfold merged_frame. rewrite Hf. unfold ffill, merge_left.
  cbn [rows].
  set (rs := rows (frame_of_bars (rd_prices raw))).
  set (d := date_min (map date rs)).
  set (W := fun r => with_fundamentals (if date r =? d then Some f else None) r).
  assert (Hrs : rs <> []).
  { unfold rs, frame_of_bars; cbn [rows].
    destruct (rd_prices raw); [congruence | discriminate]. }
  assert (Hall : forall x, In x (sort_by_date (map W rs)) ->
                           exists r, In r rs /\ x = W r).
  { intros x Hx. apply (Permutation_in _ (sort_by_date_perm _)) in Hx.
    apply in_map_iff in Hx as (r & <- & Hr). eauto. }
  assert (Hdate : forall r, date (W r) = date r) by reflexivity.
  pose proof (sort_by_date_sorted (map W rs)) as Hs.
  destruct (sort_by_date (map W rs)) as [|h t] eqn:E.
  - exfalso. apply Hrs.
    pose proof (sort_by_date_length (map W rs)) as L.
    rewrite E, length_map in L. destruct rs; [auto | discriminate].
  - cbn [ffill_rows].
    assert (Hh : carries f h).
    { destruct (Hall h (or_introl eq_refl)) as (r & Hr & ->).
      assert (Dmin : date r = d).
      { assert (Lo : d <= date r) by (apply date_min_lower, in_map, Hr).
        assert (Din : In d (map date rs)).
        { apply date_min_in. destruct rs; [congruence | discriminate]. }
        apply in_map_iff in Din as (r' & Dr' & Hr').
        assert (Hin : In (W r') (W r :: t)).
        { rewrite <- E. apply (Permutation_in _ (Permutation_sym
                                 (sort_by_date_perm _))).
          now apply in_map. }
        destruct Hin as [Hin|Hin].
        - apply (f_equal date) in Hin. rewrite !Hdate in Hin. lia.
        - inversion Hs as [|? ? _ Hle]; subst.
          rewrite Forall_forall in Hle. specialize (Hle _ Hin).
          unfold date_le in Hle. rewrite !Hdate in Hle. lia. }
      unfold W. rewrite Dmin, Z.eqb_refl. apply with_fundamentals_some. }
    constructor; auto.
    apply ffill_from_carries; auto.
    apply Forall_forall. intros x Hx.
    destruct (Hall x (or_intror Hx)) as (r & _ & ->). unfold W.
    destruct (date r =? d);
      [left; apply with_fundamentals_some | right; apply with_fundamentals_none].
Qed.

Lemma ffill_from_length prev l : length (ffill_from prev l) = length l.
Proof. revert prev; induction l; intros prev; simpl; auto. Qed.

Lemma ffill_rows_length l : length (ffill_rows l) = length l.
Proof. destruct l; simpl; auto. now rewrite ffill_from_length. Qed.

Lemma merged_frame_length raw :
  length (rows (merged_frame raw)) = length (rd_prices raw).
Proof.
  unfold merged_frame.
  destruct (rd_fundamentals raw); unfold ffill, merge_left, frame_of_bars;
    cbn [rows];
    now rewrite ?ffill_rows_length, ?sort_by_date_length, ?length_map.
Qed.

(* ================================================================== *)
(** * The rows of the final table *)

Section Pipeline.

Variable raw : RawData.
Hypothesis Hp : rd_prices raw <> [].

Lemma process_data_origin :
  exists tbl ws out,
    computed_table raw = inr tbl
    /\ rows tbl = map (fun r => set_ticker (rd_ticker raw)
                                  (fundamentals_row (indicator_frame raw) r))
                      (rows (indicator_frame raw))
    /\ process_data raw = inr (ws, out)
    /\ (exists numeric,
          rows out = map (output_row numeric) (filter row_ok (rows tbl)))
    /\ map fst ws = map date (filter (fun r => negb (row_ok r)) (rows tbl)).
Proof.
  destruct (process_data_rows raw Hp) as (tbl & ws & out & E & R & P & Ro & W).
  exists tbl, ws, out. repeat split; auto.
  eexists. rewrite Ro, map_map. reflexivity.
Qed.

Lemma indicator_frame_length :
  length (rows (indicator_frame raw)) = length (rd_prices raw).
Proof.
  unfold indicator_frame; cbn [rows].
  now rewrite imap_from_length, sort_by_date_length, merged_frame_length.
Qed.

Lemma indicator_frame_origin r :
  In r (rows (indicator_frame raw)) ->
  exists i r0 cs hs,
    In r0 (rows (merged_frame raw)) /\ r = indicator_row cs hs i r0.
Proof.
  unfold indicator_frame; cbn [rows]. intros H.
  apply in_imap_from in H as (i & r0 & N & ->).
  exists (0 + i)%nat, r0. eexists; eexists. split; [|reflexivity].
  apply (Permutation_in _ (sort_by_date_perm _)).
  eapply nth_error_In, N.
Qed.

Lemma indicator_frame_column c :
  has_column c (indicator_frame raw)
  = (if in_dec string_dec c
          (indicator_columns
             match rd_fundamentals raw with
             | Some _ => (price_columns ++ fundamentals_columns)%list
             | None => price_columns
             end)
     then true else false).
Proof.
  unfold indicator_frame, has_column; cbn [columns].
  now rewrite (columns_merged_frame raw Hp).
Qed.

Lemma indicator_frame_carries f :
  rd_fundamentals raw = Some f ->
  forall r, In r (rows (indicator_frame raw)) -> carries f r.
Proof.
  intros Hf r Hr.
  apply indicator_frame_origin in Hr as (i & r0 & cs & hs & H0 & ->).
  pose proof (merged_rows_carry raw f Hp Hf) as C.
  rewrite Forall_forall in C. exact (C _ H0).
Qed.

Lemma recomputes_ev_snapshot f :
  rd_fundamentals raw = Some f ->
  recomputes_ev (indicator_frame raw)
  = negb (is_some (rf_enterprise_value f)).
Proof.
  intros Hf. unfold recomputes_ev.
  rewrite indicator_frame_column, Hf.
  change (negb _ || ?x) with x.
  pose proof (indicator_frame_carries f Hf) as C.
  pose proof indicator_frame_length as L.
  destruct (rows (indicator_frame raw)) as [|r rs] eqn:E.
  { destruct (rd_prices raw); [congruence | discriminate]. }
  destruct (rf_enterprise_value f) as [v|] eqn:Ev; cbn [is_some negb].
  - cbn [map forallb].
    destruct (C r (or_introl eq_refl)) as (_ & _ & _ & _ & _ & ->).
    now rewrite Ev.
  - apply forallb_forall. intros x Hx.
    apply in_map_iff in Hx as (y & <- & Hy).
    destruct (C y Hy) as (_ & _ & _ & _ & _ & ->). now rewrite Ev.
Qed.

Lemma recomputes_ev_no_snapshot :
  rd_fundamentals raw = None -> recomputes_ev (indicator_frame raw) = true.
Proof.
  intros Hf. unfold recomputes_ev. now rewrite indicator_frame_column, Hf.
Qed.

Lemma output_row_origin ws out x :
  process_data raw = inr (ws, out) ->
  In x (rows out) ->
  exists numeric r0,
    In r0 (rows (indicator_frame raw))
    /\ x = output_row numeric
             (set_ticker (rd_ticker raw)
                (fundamentals_row (indicator_frame raw) r0)).
Proof.
  intros E Hx.
  destruct process_data_origin
    as (tbl & ws' & out' & _ & R & E' & (numeric & Ro) & _).
  rewrite E in E'. injection E' as <- <-.
  rewrite Ro in Hx. apply in_map_iff in Hx as (r & <- & Hr).
  apply filter_In in Hr as [Hr _]. rewrite R in Hr.
  apply in_map_iff in Hr as (r0 & <- & H0).
  exists numeric, r0. auto.
Qed.

Lemma bvps_of_snapshot f r :
  rd_fundamentals raw = Some f ->
  In r (rows (indicator_frame raw)) ->
  bvps_of (indicator_frame raw) r = snapshot_bvps f.
Proof.
  intros Hf Hr. unfold bvps_of. rewrite !indicator_frame_column, Hf.
  destruct (indicator_frame_carries f Hf r Hr) as (-> & -> & _).
  reflexivity.
Qed.

Lemma ev_of_snapshot f r :
  rd_fundamentals raw = Some f ->
  In r (rows (indicator_frame raw)) ->
  ev_of (indicator_frame raw) r = snapshot_ev f (close r).
Proof.
  intros Hf Hr. unfold ev_of, cell_or_nan.
  rewrite !indicator_frame_column, Hf.
  destruct (indicator_frame_carries f Hf r Hr) as (_ & -> & -> & -> & _).
  reflexivity.
Qed.

Lemma bvps_of_no_snapshot r :
  rd_fundamentals raw = None -> bvps_of (indicator_frame raw) r = NaN.
Proof.
  intros Hf. unfold bvps_of, cell_or_nan.
  now rewrite !indicator_frame_column, Hf.
Qed.

Lemma ev_of_no_snapshot r :
  rd_fundamentals raw = None -> ev_of (indicator_frame raw) r = NaN.
Proof.
  intros Hf. unfold ev_of, cell_or_nan.
  now rewrite !indicator_frame_column, Hf.
Qed.

End Pipeline.

Lemma output_row_fields numeric t df r :
  let x := output_row numeric (set_ticker t (fundamentals_row df r)) in
  close x = close r
  /\ book_value_per_share x = bvps_of df r
  /\ enterprise_value x
     = (if recomputes_ev df then ev_of df r else enterprise_value r).
Proof.
  unfold fundamentals_row. destruct (recomputes_ev df); repeat split.
Qed.





Lemma Qccompare_qz a b : (qz a ?= qz b)%Qc = (a ?= b)%Z.
Proof.
  unfold Qccompare, qz, Q2Qc; cbn [this]. rewrite <- Qred_compare.
  unfold Qcompare, inject_Z; cbn [Qnum Qden]. now rewrite !Z.mul_1_r.
Qed.

(* ================================================================== *)
(** * Further facts about the indicators *)




Lemma nth_error_in_window {A} w i (l : list A) x :
  (1 <= w)%nat -> nth_error l i = Some x -> In x (window w i l).
Proof.
  intros Hw H. unfold window.
  pose proof (nth_error_row _ _ _ H) as Hi.
  assert (E : nth_error (skipn (S i - w) (firstn (S i) l)) (i - (S i - w))
              = Some x).
  { rewrite nth_error_skipn.
    replace (S i - w + (i - (S i - w)))%nat with i by lia.
    rewrite nth_error_firstn.
    replace (i <? S i)%nat with true by (symmetry; apply Nat.ltb_lt; lia).
    exact H. }
  eapply nth_error_In, E.
Qed.

Lemma Qcinv_pos (m : Qc) : (0 < m)%Qc -> (0 < / m)%Qc.
Proof.
  unfold Qclt, Qcinv, Q2Qc; cbn [this]. change (Qred 0) with 0%Q. intros H.
  rewrite Qred_correct. now apply Qinv_lt_0_compat.
Qed.

Lemma Qcdiv_le_1 (c m : Qc) : (0 < m)%Qc -> (c <= m)%Qc -> (c / m <= 1)%Qc.
Proof.
  intros Hm Hc. unfold Qcdiv.
  rewrite <- (Qcmult_inv_r m) by (intros E; subst; discriminate Hm).
  apply Qcmult_le_compat_r; auto. apply Qclt_le_weak, Qcinv_pos, Hm.
Qed.

Lemma pct_nonpositive (c m : Qc) :
  (0 < m)%Qc -> (c <= m)%Qc -> ((c / m - 1) * qz 100 <= 0)%Qc.
Proof.
  intros Hm Hc.
  rewrite <- (Qcmult_0_l (qz 100)).
  apply Qcmult_le_compat_r; [|discriminate].
  apply (proj2 (Qcle_minus_iff _ _)).
  replace (0 + - (c / m - 1))%Qc with (1 + - (c / m))%Qc by ring.
  apply (proj1 (Qcle_minus_iff _ _)). now apply Qcdiv_le_1.
Qed.












(* ================================================================== *)
(** * The order in which the bars arrive *)

Lemma NoDup_map_inj {A B} (f : A -> B) l x y :
  NoDup (map f l) -> In x l -> In y l -> f x = f y -> x = y.
Proof.
  induction l as [|a l IH]; simpl; intros N Hx Hy E; [contradiction|].
  inversion N as [|? ? Na Nl]; subst.
  destruct Hx as [<-|Hx], Hy as [<-|Hy]; auto.
  - exfalso. apply Na. rewrite E. now apply in_map.
  - exfalso. apply Na. rewrite <- E. now apply in_map.
Qed.

Lemma sorted_perm_unique l l' :
  StronglySorted date_le l -> StronglySorted date_le l' ->
  Permutation l l' -> NoDup (map date l) -> l = l'.
Proof.
  intros S; revert l'; induction S as [|h t St IH Hh]; intros l' S' P N.
  - apply Permutation_nil in P. now subst.
  - destruct l' as [|h' t'].
    { symmetry in P. apply Permutation_nil in P. discriminate. }
    inversion S' as [|? ? St' Hh']; subst.
    assert (E : h = h').
    { assert (I : In h (h' :: t')) by (apply (Permutation_in _ P); now left).
      assert (I' : In h' (h :: t))
        by (apply (Permutation_in _ (Permutation_sym P)); now left).
      destruct I as [I|I]; [now subst|].
      destruct I' as [I'|I']; [now subst|].
      rewrite Forall_forall in Hh, Hh'.
      specialize (Hh _ I'). specialize (Hh' _ I). unfold date_le in *.
      apply (NoDup_map_inj date (h :: t)); auto; [now left | now right | lia]. }
    subst h'. f_equal. apply IH; auto.
    + now apply Permutation_cons_inv in P.
    + now inversion N.
Qed.

Lemma sort_by_date_perm_eq l l' :
  Permutation l l' -> NoDup (map date l) -> sort_by_date l = sort_by_date l'.
Proof.
  intros P N. apply sorted_perm_unique; try apply sort_by_date_sorted.
  - rewrite (sort_by_date_perm l), (sort_by_date_perm l'). exact P.
  - eapply Permutation_NoDup; [|exact N].
    apply Permutation_map, Permutation_sym, sort_by_date_perm.
Qed.

Lemma sort_values_date_perm df df' :
  columns df = columns df' ->
  Permutation (rows df) (rows df') ->
  NoDup (map date (rows df)) ->
  sort_values_date df = sort_values_date df'.
Proof.
  intros C P N. unfold sort_values_date, has_column.
  now rewrite C, (sort_by_date_perm_eq _ _ P N).
Qed.

Lemma date_min_perm ds ds' : Permutation ds ds' -> date_min ds = date_min ds'.
Proof.
  intros P. destruct ds as [|d t].
  { apply Permutation_nil in P. now subst. }
  assert (N : d :: t <> []) by discriminate.
  assert (N' : ds' <> []).
  { intros ->. symmetry in P. apply Permutation_nil in P. discriminate. }
  pose proof (date_min_in _ N) as I. pose proof (date_min_in _ N') as I'.
  apply (Permutation_in _ P) in I.
  apply (Permutation_in _ (Permutation_sym P)) in I'.
  apply date_min_lower in I. apply date_min_lower in I'. lia.
Qed.

Lemma existsb_perm {A} (p : A -> bool) l l' :
  Permutation l l' -> existsb p l = existsb p l'.
Proof.
  induction 1 as [|x l l' _ IH|x y l|l l' l'' _ IH1 _ IH2]; simpl; auto.
  - now rewrite IH.
  - destruct (p x), (p y); reflexivity.
  - congruence.
Qed.

Lemma frame_of_bars_perm ps ps' :
  Permutation ps ps' ->
  columns (frame_of_bars ps) = columns (frame_of_bars ps')
  /\ Permutation (rows (frame_of_bars ps)) (rows (frame_of_bars ps'))
  /\ map date (rows (frame_of_bars ps)) = map pb_date ps.
Proof.
  intros P. unfold frame_of_bars; cbn [columns rows]. split; [|split].
  - destruct ps, ps'; auto.
    + apply Permutation_nil in P. discriminate.
    + symmetry in P. apply Permutation_nil in P. discriminate.
  - rewrite (existsb_perm _ _ _ (Permutation_map pb_volume P)).
    now apply Permutation_map.
  - rewrite map_map. reflexivity.
Qed.

(* ================================================================== *)
(** * Every bar is accounted for *)







(* ================================================================== *)
(** * The detectors return dates of the table, in table order *)



Lemma select_length {A} c (l : list A) : (length (select c l) <= length l)%nat.
Proof.
  revert c; induction l as [|y t IH]; intros [|b c]; simpl; try lia.
  specialize (IH c). destruct b; simpl; lia.
Qed.


(* ================================================================== *)
(** * Well-formed bars pass through unchanged *)















(* ================================================================== *)
(** * The table can be validated again *)














(* ================================================================== *)
(** * database.py: upserts *)

Lemma key_eqb_eq a b : key_eqb a b = true <-> a = b.
Proof.
  destruct a as [s d], b as [s' d']. unfold key_eqb; cbn [fst snd].
  rewrite andb_true_iff, String.eqb_eq, Z.eqb_eq.
  split; [intros [-> ->]; reflexivity | intros [= -> ->]; auto].
Qed.

Lemma key_eqb_neq a b : key_eqb a b = false <-> a <> b.
Proof.
  rewrite <- key_eqb_eq. destruct (key_eqb a b); split; congruence.
Qed.

Lemma next_id_above ids i : In i ids -> i < next_id ids.
Proof.
  unfold next_id. induction ids as [|j ids IH]; cbn [fold_right In];
    [contradiction|].
  intros [->|H]; [lia|]. specialize (IH H). lia.
Qed.

Lemma next_id_fresh ids : ~ In (next_id ids) ids.
Proof. intros H. apply next_id_above in H. lia. Qed.

Section Upsert.

Variable v : DailyMetrics.

Let hit (row : DailyMetric) : bool :=
  key_eqb (metric_key (dmr_values row)) (metric_key v).




Lemma upsert_holds tbl : holds (upsert_daily_metric v tbl) v.
Proof.
  unfold holds, upsert_daily_metric. fold hit.
  destruct (existsb hit tbl) eqn:E.
  - split.
    + apply existsb_exists in E as (row & Hr & Hh).
      exists (mkDailyMetric (dmr_id row) v). split; auto.
      apply in_map_iff. exists row. unfold hit in Hh. now rewrite Hh.
    + intros row Hr K. apply in_map_iff in Hr as (row0 & <- & H0).
      fold (hit row0) in *. destruct (hit row0) eqn:H; auto.
      unfold hit in H. apply key_eqb_neq in H. contradiction.
  - split.
    + eexists. split; [apply in_or_app; right; left; reflexivity|reflexivity].
    + intros row Hr K. apply in_app_or in Hr as [Hr|[<-|[]]]; auto.
      exfalso. assert (X : existsb hit tbl = true).
      { apply existsb_exists. exists row. split; auto.
        now apply key_eqb_eq. }
      congruence.
Qed.

Lemma upsert_keeps row tbl :
  metric_key (dmr_values row) <> metric_key v ->
  (In row (upsert_daily_metric v tbl) <-> In row tbl).
Proof.
  intros N. unfold upsert_daily_metric. fold hit.
  assert (Hr : hit row = false) by now apply key_eqb_neq.
  destruct (existsb hit tbl).
  - rewrite in_map_iff. split.
    + intros (row0 & E & H0). fold (hit row0) in E.
      destruct (hit row0) eqn:H; [|now subst].
      subst row. cbn [dmr_values] in N. contradiction.
    + intros H. exists row. fold (hit row). now rewrite Hr.
  - rewrite in_app_iff. split; [|auto].
    intros [H|[<-|[]]]; auto. cbn [dmr_values] in N. contradiction.
Qed.

Lemma upsert_holds_other w tbl :
  metric_key w <> metric_key v ->
  holds tbl w -> holds (upsert_daily_metric v tbl) w.
Proof.
  intros N [(row & Hr & Ev) Hall]. split.
  - exists row. split; auto. apply upsert_keeps; auto. now rewrite Ev.
  - intros row' Hr' K.
    assert (N' : metric_key (dmr_values row') <> metric_key v)
      by (rewrite K; exact N).
    apply (proj1 (upsert_keeps row' tbl N')) in Hr'. now apply Hall.
Qed.

Lemma upsert_same tbl : holds tbl v -> upsert_daily_metric v tbl = tbl.
Proof.
  intros [(row & Hr & Ev) Hall]. unfold upsert_daily_metric. fold hit.
  replace (existsb hit tbl) with true.
  - rewrite <- (map_id tbl) at 2. apply map_ext_in. intros r Hin.
    fold (hit r). destruct (hit r) eqn:H; auto.
    unfold hit in H. apply key_eqb_eq in H.
    rewrite <- (Hall r Hin H). now destruct r.
  - symmetry. apply existsb_exists. exists row. split; auto.
    unfold hit. apply key_eqb_eq. now rewrite Ev.
Qed.



End Upsert.

Lemma fold_left_map {A B C} (f : A -> C -> A) (g : B -> C) l a :
  fold_left (fun t x => f t (g x)) l a = fold_left f (map g l) a.
Proof. revert a; induction l; intros a0; simpl; auto. Qed.

Lemma upserts_holds_preserved vs tbl w :
  (forall v, In v vs -> metric_key w <> metric_key v) ->
  holds tbl w ->
  holds (fold_left (fun t v => upsert_daily_metric v t) vs tbl) w.
Proof.
  revert tbl; induction vs as [|v vs IH]; intros tbl N H; simpl; auto.
  apply IH; [intros; apply N; now right|].
  apply upsert_holds_other; auto. apply N. now left.
Qed.

Lemma upserts_hold vs tbl :
  NoDup (map metric_key vs) ->
  forall v, In v vs ->
    holds (fold_left (fun t v => upsert_daily_metric v t) vs tbl) v.
Proof.
  revert tbl; induction vs as [|a vs IH]; intros tbl N v Hv; [contradiction|].
  simpl in N. inversion N as [|? ? Na Nv]; subst. simpl.
  destruct Hv as [->|Hv].
  - apply upserts_holds_preserved; [|apply upsert_holds].
    intros w Hw E. apply Na. rewrite E. now apply in_map.
  - now apply IH.
Qed.



Lemma upserts_fixed vs tbl :
  (forall v, In v vs -> holds tbl v) ->
  fold_left (fun t v => upsert_daily_metric v t) vs tbl = tbl.
Proof.
  induction vs as [|v vs IH]; intros H; simpl; auto.
  rewrite upsert_same by (apply H; now left).
  apply IH. intros; apply H; now right.
Qed.


Lemma save_rows_fold df tbl :
  fold_left (fun t r => upsert_daily_metric (metric_values df r) t) (rows df) tbl
  = fold_left (fun t v => upsert_daily_metric v t)
      (map (metric_values df) (rows df)) tbl.
Proof. apply (fold_left_map (fun t v => upsert_daily_metric v t)). Qed.

Lemma metric_keys_of_rows df l :
  map metric_key (map (metric_values df) l)
  = map (fun r => (ticker r, date r)) l.
Proof. rewrite map_map. reflexivity. Qed.


(* ================================================================== *)
(** * database.py: insert-or-ignore *)

Lemma event_eqb_eq a b : event_eqb a b = true <-> a = b.
Proof.
  destruct a as [t d s], b as [t' d' s'].
  unfold event_eqb; cbn [se_ticker se_date se_signal_type].
  rewrite !andb_true_iff, !String.eqb_eq, Z.eqb_eq.
  split; [intros [[-> ->] ->]; reflexivity | intros [= -> -> ->]; auto].
Qed.

Lemma existsb_event e tbl :
  existsb (fun row => event_eqb (sr_event row) e) tbl = true
  <-> In e (map sr_event tbl).
Proof.
  rewrite existsb_exists, in_map_iff.
  split; intros (row & A & B).
  - exists row. split; auto. now apply event_eqb_eq.
  - exists row. split; auto. now apply event_eqb_eq.
Qed.

Lemma insert_or_ignore_spec e tbl :
  (In e (map sr_event tbl) /\ insert_or_ignore e tbl = tbl)
  \/ (~ In e (map sr_event tbl)
      /\ insert_or_ignore e tbl
         = (tbl ++ [mkSignalRow (next_id (map sr_id tbl)) e])%list).
Proof.
  unfold insert_or_ignore.
  destruct (existsb (fun row => event_eqb (sr_event row) e) tbl) eqn:E.
  - left. split; auto. now apply existsb_event.
  - right. split; auto. intros H. apply existsb_event in H. congruence.
Qed.

Lemma save_signal_events_spec tbl symbol dates ty :
  exists added,
    save_signal_events tbl symbol dates ty = (tbl ++ added)%list
    /\ (forall d, In d dates ->
          In (mkSignalEvent symbol d ty)
             (map sr_event (save_signal_events tbl symbol dates ty)))
    /\ (forall row, In row added ->
          exists d, In d dates /\ sr_event row = mkSignalEvent symbol d ty)
    /\ (NoDup (map sr_event tbl) ->
        NoDup (map sr_event (save_signal_events tbl symbol dates ty)))
    /\ (NoDup (map sr_id tbl) ->
        NoDup (map sr_id (save_signal_events tbl symbol dates ty))).
Proof.
  unfold save_signal_events.
  revert tbl; induction dates as [|d ds IH]; intros tbl.
  - exists []. simpl. rewrite app_nil_r. repeat split; auto; contradiction.
  - cbn [fold_left].
    set (e := mkSignalEvent symbol d ty).
    destruct (IH (insert_or_ignore e tbl)) as (added & E & Hin & Hadd & Nk & Ni).
    destruct (insert_or_ignore_spec e tbl) as [[P Eq]|[P Eq]].
    + rewrite Eq in *. exists added. split; [exact E|]. split; [|split].
      * intros d' [<-|Hd]; auto. rewrite E, map_app. apply in_or_app. now left.
      * intros row Hr. destruct (Hadd row Hr) as (d' & Hd' & Er).
        exists d'. split; auto. now right.
      * split; assumption.
    + exists (mkSignalRow (next_id (map sr_id tbl)) e :: added).
      rewrite Eq in *. rewrite <- app_assoc in E. cbn [app] in E.
      split; [exact E|]. split; [|split; [|split]].
      * intros d' [<-|Hd]; auto. rewrite E, map_app. apply in_or_app. right.
        left. reflexivity.
      * intros row [<-|Hr].
        -- exists d. split; [now left | reflexivity].
        -- destruct (Hadd row Hr) as (d' & Hd' & Er).
           exists d'. split; auto. now right.
      * intros N. apply Nk. rewrite map_app. apply NoDup_app; auto.
        -- repeat constructor. intros [].
        -- intros x Hx [<-|[]]. contradiction.
      * intros N. apply Ni. rewrite map_app. apply NoDup_app; auto.
        -- repeat constructor. intros [].
        -- intros x Hx [<-|[]]. now apply next_id_fresh in Hx.
Qed.

Lemma inserts_fixed tbl symbol dates ty :
  (forall d, In d dates -> In (mkSignalEvent symbol d ty) (map sr_event tbl)) ->
  save_signal_events tbl symbol dates ty = tbl.
Proof.
  unfold save_signal_events. induction dates as [|d ds IH]; intros H; auto.
  cbn [fold_left].
  destruct (insert_or_ignore_spec (mkSignalEvent symbol d ty) tbl)
    as [[P Eq]|[P Eq]].
  - rewrite Eq. apply IH. intros; apply H; now right.
  - exfalso. apply P, H. now left.
Qed.

(* ================================================================== *)
(** * Computing the indicators twice *)





(* ================================================================== *)
(** * The claims *)

(** ** Empty input *)

Lemma process_data_no_prices t f :
  process_data (mkRawData t [] f) = inl (KeyError "date").
Proof. destruct f; reflexivity. Qed.

Lemma detect_on_columnless_frame :
  detect_golden_crossover (frame_of_metrics []) = inl (KeyError "sma_50")
  /\ detect_death_crossover (frame_of_metrics []) = inl (KeyError "sma_50").
Proof. split; reflexivity. Qed.

(** C1, as stated, fails: with no price bars the frame built from them
    has no columns, and the pipeline stops with [KeyError] on ["date"]
    instead of returning an empty table. *)
Lemma process_data_empty_raises :
  process_data (mkRawData "T" [] None) = inl (KeyError "date")
  /\ ~ (exists ws out, process_data (mkRawData "T" [] None) = inr (ws, out)).
Proof.
  split; [reflexivity|]. intros (ws & out & H). discriminate H.
Qed.

(** C1, amended.  For an empty price sequence [process_data] raises
    [KeyError] on the missing ["date"] column, with or without a
    fundamentals snapshot; each crossover detector returns the empty
    event list for a table without rows that has the [date], [sma_50]
    and [sma_200] columns. *)
Theorem empty_input_behaviour (t : string) (f : option RawFundamentals)
    (df : DataFrame) :
  rows df = [] ->
  has_columns ["date"; "sma_50"; "sma_200"] df = true ->
  process_data (mkRawData t [] f) = inl (KeyError "date")
  /\ detect_golden_crossover df = inr []
  /\ detect_death_crossover df = inr [].
Proof.
  intros Hr Hc. split; [apply process_data_no_prices|].
  rewrite (detect_golden_crossover_spec df Hc),
          (detect_death_crossover_spec df Hc), Hr.
  split; reflexivity.
Qed.

Lemma empty_input_behaviour_witness :
  process_data (mkRawData "T" [] None) = inl (KeyError "date")
  /\ detect_golden_crossover (sma_frame []) = inr []
  /\ detect_death_crossover (sma_frame []) = inr [].
Proof.
  apply (empty_input_behaviour "T" None (sma_frame [])); reflexivity.
Defined.

(** ** Crossover detection *)

(** C4.  On a table with the [date], [sma_50] and [sma_200] columns the
    golden detector returns, in table order, exactly the dates of the
    rows [i >= 1] with [sma_50[i] > sma_200[i]] and
    [sma_50[i-1] <= sma_200[i-1]], and the death detector those with
    [sma_50[i] < sma_200[i]] and [sma_50[i-1] >= sma_200[i-1]]; neither
    raises; row 0 is never an event; and a row whose current or previous
    value is null satisfies neither condition. *)
Theorem detect_crossovers_exact (df : DataFrame) :
  has_columns ["date"; "sma_50"; "sma_200"] df = true ->
  let s50 := map sma_50 (rows df) in
  let s200 := map sma_200 (rows df) in
  let ds := map date (rows df) in
  detect_golden_crossover df = inr (dates_where (golden_at s50 s200) ds)
  /\ detect_death_crossover df = inr (dates_where (death_at s50 s200) ds)
  /\ (forall d, In d (dates_where (golden_at s50 s200) ds) <->
        exists i, (1 <= i < length ds)%nat /\ nth i ds 0 = d
          /\ fgt (cell s50 i) (cell s200 i) = true
          /\ fle (cell s50 (i - 1)) (cell s200 (i - 1)) = true)
  /\ (forall d, In d (dates_where (death_at s50 s200) ds) <->
        exists i, (1 <= i < length ds)%nat /\ nth i ds 0 = d
          /\ flt (cell s50 i) (cell s200 i) = true
          /\ fge (cell s50 (i - 1)) (cell s200 (i - 1)) = true)
  /\ golden_at s50 s200 0 = false
  /\ death_at s50 s200 0 = false
  /\ (forall i,
        cell s50 i = NaN \/ cell s200 i = NaN
        \/ cell s50 (i - 1) = NaN \/ cell s200 (i - 1) = NaN ->
        golden_at s50 s200 i = false /\ death_at s50 s200 i = false).
Proof.
  intros Hc s50 s200 ds.
  split; [apply detect_golden_crossover_spec, Hc|].
  split; [apply detect_death_crossover_spec, Hc|].
  split; [|split]; [| |split; [reflexivity|split; [reflexivity|]]].
  - intros d. rewrite in_dates_where. split.
    + intros ([|j] & Hi & E & Hp); [discriminate Hp|].
      apply andb_true_iff in Hp as [H1 H2].
      exists (S j). rewrite Nat.sub_1_r. simpl. repeat split; auto; lia.
    + intros (i & Hi & E & H1 & H2). exists i. repeat split; auto; try lia.
      destruct i as [|j]; [lia|].
      rewrite Nat.sub_1_r in H2; simpl in H2.
      unfold golden_at. now rewrite H1, H2.
  - intros d. rewrite in_dates_where. split.
    + intros ([|j] & Hi & E & Hp); [discriminate Hp|].
      apply andb_true_iff in Hp as [H1 H2].
      exists (S j). rewrite Nat.sub_1_r. simpl. repeat split; auto; lia.
    + intros (i & Hi & E & H1 & H2). exists i. repeat split; auto; try lia.
      destruct i as [|j]; [lia|].
      rewrite Nat.sub_1_r in H2; simpl in H2.
      unfold death_at. now rewrite H1, H2.
  - intros [|j] H; [split; reflexivity|].
    rewrite Nat.sub_1_r in H; simpl in H. unfold golden_at, death_at, fgt, fge.
    destruct H as [H | [H | [H | H]]]; rewrite H;
      rewrite ?flt_NaN_l, ?flt_NaN_r, ?fle_NaN_l, ?fle_NaN_r,
              ?andb_false_r; auto.
Qed.

Lemma detect_crossovers_exact_witness :
  detect_golden_crossover crossover_table = inr [3]
  /\ detect_death_crossover crossover_table = inr [5].
Proof.
  destruct (detect_crossovers_exact crossover_table eq_refl)
    as (Hg & Hd & _).
  split; [rewrite Hg | rewrite Hd]; reflexivity.
Defined.

(** C5.  When the dates of the table are pairwise distinct, no date is
    returned by both detectors. *)
Theorem crossover_dates_disjoint (df : DataFrame) :
  has_columns ["date"; "sma_50"; "sma_200"] df = true ->
  NoDup (map date (rows df)) ->
  exists golden death,
    detect_golden_crossover df = inr golden
    /\ detect_death_crossover df = inr death
    /\ forall d, In d golden -> ~ In d death.
Proof.
  intros Hc Hn.
  eexists; eexists.
  split; [apply detect_golden_crossover_spec, Hc|].
  split; [apply detect_death_crossover_spec, Hc|].
  intros d Hg Hd.
  apply in_dates_where in Hg as (i & Hi & Ei & Pi).
  apply in_dates_where in Hd as (j & Hj & Ej & Pj).
  assert (i = j) as <-.
  { apply (proj1 (NoDup_nth (map date (rows df)) 0) Hn); auto. congruence. }
  destruct i as [|k]; [discriminate Pi|].
  unfold golden_at, death_at, fgt in *.
  apply andb_true_iff in Pi as [Pi _]. apply andb_true_iff in Pj as [Pj _].
  apply flt_asym in Pi. congruence.
Qed.

Lemma crossover_dates_disjoint_witness :
  exists golden death,
    detect_golden_crossover crossover_table = inr golden
    /\ detect_death_crossover crossover_table = inr death
    /\ forall d, In d golden -> ~ In d death.
Proof.
  apply (crossover_dates_disjoint crossover_table); [reflexivity|].
  repeat constructor; simpl; intuition discriminate.
Defined.

(** ** Rolling indicators *)

(** C2.  On a frame whose [close] cells are finite numbers, the table is
    the input in date order and, with [n] its number of rows: if
    [n < 10] every [sma_50] is null; if [10 <= n < 50] the last row's
    [sma_50] is the mean of the [n] closes; and in general row [i] holds
    null while fewer than 10 rows are available and otherwise the mean
    of the closes of the window ending at row [i], which for [i >= 49]
    is exactly the 50 rows [i - 49 .. i] and before that the [i + 1]
    rows so far. *)
Theorem sma_50_partial_window (df : DataFrame) (qs : list Qc) :
  has_columns ["date"; "close"; "high"] df = true ->
  map close (rows df) = map Fin qs ->
  exists out cs,
    _compute_indicators df = inr out
    /\ map close (rows out) = map Fin cs
    /\ Permutation cs qs
    /\ length (rows out) = length qs
    /\ ((length qs < 10)%nat ->
        forall r, In r (rows out) -> sma_50 r = NaN)
    /\ ((10 <= length qs < 50)%nat ->
        exists r, nth_error (rows out) (length qs - 1) = Some r
                  /\ sma_50 r = Fin (mean qs))
    /\ (forall i r, nth_error (rows out) i = Some r ->
          sma_50 r = if (S i <? 10)%nat then NaN
                     else Fin (mean (window 50 i cs)))
    /\ (forall i, (49 <= i < length qs)%nat ->
          window 50 i cs = firstn 50 (skipn (i - 49) cs)
          /\ length (window 50 i cs) = 50%nat)
    /\ (forall i, (i < 49)%nat -> window 50 i cs = firstn (S i) cs).
Proof.
  intros Hc Hq.
  destruct (_compute_indicators_nth df Hc) as (out & E & Hl & _ & Hcl & _ & Hn).
  set (s := sort_by_date (rows df)) in *.
  assert (P : Permutation (map close s) (map Fin qs)).
  { rewrite <- Hq. apply Permutation_map, sort_by_date_perm. }
  apply all_finite_perm in P as [Ecs Pcs].
  set (cs := finite_values (map close s)) in *.
  assert (Len : length cs = length qs) by now apply Permutation_length.
  assert (Lo : length (rows out) = length qs).
  { rewrite Hl. apply (f_equal (@length _)) in Hq.
    now rewrite !length_map in Hq. }
  assert (Hrow : forall i r, nth_error (rows out) i = Some r ->
            sma_50 r = if (S i <? 10)%nat then NaN
                       else Fin (mean (window 50 i cs))).
  { intros i r Hr. pose proof (nth_error_row _ _ _ Hr) as Hi.
    rewrite Hn in Hr. destruct (nth_error s i) as [r0|]; [|discriminate].
    injection Hr as <-.
    change (roll_mean 10 (window 50 i (map close s))
            = if (S i <? 10)%nat then NaN else Fin (mean (window 50 i cs))).
    rewrite Ecs. apply roll_mean_window_Fin; lia. }
  exists out, cs. repeat split; auto.
  - now rewrite Hcl.
  - intros Hs r Hr. apply In_nth_error in Hr as [i Hr].
    pose proof (nth_error_row _ _ _ Hr) as Hi.
    rewrite (Hrow _ _ Hr).
    destruct (Nat.ltb_spec (S i) 10); auto; lia.
  - intros Hs.
    destruct (nth_error (rows out) (length qs - 1)) as [r|] eqn:Hr.
    + exists r. split; auto. rewrite (Hrow _ _ Hr).
      destruct (Nat.ltb_spec (S (length qs - 1)) 10); [lia|].
      rewrite <- Len, window_whole by lia. f_equal. now apply mean_perm.
    + apply nth_error_None in Hr. lia.
  - apply window_trailing. lia.
  - rewrite window_length; lia.
  - intros i Hi. apply window_short. lia.
Qed.

Lemma sma_50_partial_window_witness :
  exists out cs,
    _compute_indicators (frame_of_bars (rising_bars 12)) = inr out
    /\ map close (rows out) = map Fin cs
    /\ exists r, nth_error (rows out) 11 = Some r
                 /\ sma_50 r
                    = Fin (mean (map (fun i => qz (Z.of_nat i)) (seq 0 12))).
Proof.
  destruct (sma_50_partial_window (frame_of_bars (rising_bars 12))
              (map (fun i => qz (Z.of_nat i)) (seq 0 12))
              eq_refl eq_refl)
    as (out & cs & E & Hc & _ & _ & _ & Hlast & _).
  exists out, cs. repeat split; auto.
  apply Hlast. simpl. lia.
Defined.

(** C3, as stated, fails: after twenty bars that trade at zero the last
    row has [high_52w = 0], which is not null, while its
    [pct_from_52w_high] is the NaN of [0 / 0]. *)
Lemma pct_null_with_known_high :
  exists ws out r,
    process_data (mkRawData "T" (zero_bars 20) None) = inr (ws, out)
    /\ nth_error (rows out) 19 = Some r
    /\ notna (high_52w r) = true
    /\ pct_from_52w_high r = NaN.
Proof.
  assert (G : match process_data (mkRawData "T" (zero_bars 20) None) with
              | inr (_, out) =>
                  match nth_error (rows out) 19 with
                  | Some r => notna (high_52w r) = true
                              /\ pct_from_52w_high r = NaN
                  | None => False
                  end
              | inl _ => False
              end) by (vm_compute; split; reflexivity).
  revert G.
  destruct (process_data (mkRawData "T" (zero_bars 20) None))
    as [e|[ws out]] eqn:E; [intros []|].
  destruct (nth_error (rows out) 19) as [r|] eqn:Er; [|intros []].
  intros [G1 G2]. exists ws, out, r. repeat split; assumption || reflexivity.
Qed.

(** C3, amended.  For every row, [pct_from_52w_high] is null whenever
    [high_52w] is null, and otherwise is the float value of
    [(close / high_52w - 1) * 100]; for a finite close and a non-zero
    [high_52w] that is the number [(close / high_52w - 1) * 100].  On a
    frame whose [high] cells are finite, [high_52w] is null until 20
    rows are available and from then on the maximum of [high] over the
    window of at most 252 rows ending at the row. *)
Theorem pct_from_52w_high_defined (df : DataFrame) (hs : list Qc) :
  has_columns ["date"; "close"; "high"] df = true ->
  map high (rows df) = map Fin hs ->
  exists out ms,
    _compute_indicators df = inr out
    /\ map high (rows out) = map Fin ms
    /\ Permutation ms hs
    /\ forall i r, nth_error (rows out) i = Some r ->
         (if (S i <? 20)%nat then high_52w r = NaN
          else exists m, high_52w r = Fin m
                         /\ is_maximum m (window 252 i ms))
         /\ pct_from_52w_high r
            = (if notna (high_52w r)
               then fmul (fsub (fdiv (close r) (high_52w r)) (Fin 1%Qc))
                         (Fin (qz 100))
               else NaN)
         /\ (high_52w r = NaN -> pct_from_52w_high r = NaN)
         /\ (forall c m, close r = Fin c -> high_52w r = Fin m -> m <> 0%Qc ->
               pct_from_52w_high r = Fin ((c / m - 1) * qz 100)%Qc).
Proof.
  intros Hc Hq.
  destruct (_compute_indicators_nth df Hc) as (out & E & Hl & _ & _ & Hh & Hn).
  set (s := sort_by_date (rows df)) in *.
  assert (P : Permutation (map high s) (map Fin hs)).
  { rewrite <- Hq. apply Permutation_map, sort_by_date_perm. }
  apply all_finite_perm in P as [Ems Pms].
  set (ms := finite_values (map high s)) in *.
  exists out, ms. repeat split; auto; try congruence.
  - pose proof (nth_error_row _ _ _ H) as Hi.
    rewrite Hn in H. destruct (nth_error s i) as [r0|]; [|discriminate].
    injection H as <-.
    change (if (S i <? 20)%nat
            then roll_max 20 (window 252 i (map high s)) = NaN
            else exists m, roll_max 20 (window 252 i (map high s)) = Fin m
                           /\ is_maximum m (window 252 i ms)).
    rewrite Ems. apply roll_max_window_Fin; [lia|].
    apply (f_equal (@length _)) in Ems. rewrite !length_map in Ems.
    rewrite <- Ems. unfold s. rewrite sort_by_date_length. lia.
  - rewrite Hn in H. destruct (nth_error s i) as [r0|]; [|discriminate].
    now injection H as <-.
  - intros Hnull. rewrite Hn in H.
    destruct (nth_error s i) as [r0|]; [|discriminate].
    injection H as <-.
    change (roll_max 20 (window 252 i (map high s)) = NaN) in Hnull.
    change (pct_expr (close r0) (roll_max 20 (window 252 i (map high s)))
            = NaN).
    now rewrite Hnull.
  - intros c m Ec Em Hm. rewrite Hn in H.
    destruct (nth_error s i) as [r0|]; [|discriminate].
    injection H as <-.
    change (close r0 = Fin c) in Ec.
    change (roll_max 20 (window 252 i (map high s)) = Fin m) in Em.
    change (pct_expr (close r0) (roll_max 20 (window 252 i (map high s)))
            = Fin ((c / m - 1) * qz 100)%Qc).
    rewrite Ec, Em. now apply pct_expr_finite.
Qed.

Lemma pct_from_52w_high_defined_witness :
  exists out ms,
    _compute_indicators (frame_of_bars (rising_bars 22)) = inr out
    /\ map high (rows out) = map Fin ms
    /\ Permutation ms (map (fun i => qz (Z.of_nat i + 1)) (seq 0 22)).
Proof.
  destruct (pct_from_52w_high_defined (frame_of_bars (rising_bars 22))
              (map (fun i => qz (Z.of_nat i + 1)) (seq 0 22))
              eq_refl eq_refl)
    as (out & ms & E & Hh & P & _).
  exists out, ms. auto.
Defined.



(** ** The pipeline *)



(** ** Fundamentals *)

Lemma fundamentals_of_output_rows (raw : RawData) :
  rd_prices raw <> [] ->
  exists ws out,
    process_data raw = inr (ws, out)
    /\ forall r, In r (rows out) ->
         match rd_fundamentals raw with
         | None => book_value_per_share r = NaN /\ enterprise_value r = NaN
         | Some f =>
             book_value_per_share r = snapshot_bvps f
             /\ enterprise_value r
                = match rf_enterprise_value f with
                  | Some v => Fin v
                  | None => snapshot_ev f (close r)
                  end
         end.
Proof.
  intros Hp.
  destruct (process_data_origin raw Hp) as (tbl & ws & out & _ & _ & E & _).
  exists ws, out. split; [exact E|]. intros x Hx.
  destruct (output_row_origin raw Hp ws out x E Hx) as (n & r0 & H0 & ->).
  destruct (output_row_fields n (rd_ticker raw) (indicator_frame raw) r0)
    as (Ec & Eb & Ee).
  rewrite Eb, Ee, Ec.
  destruct (rd_fundamentals raw) as [f|] eqn:Hf.
  - rewrite (bvps_of_snapshot raw Hp f r0 Hf H0),
            (recomputes_ev_snapshot raw Hp f Hf),
            (ev_of_snapshot raw Hp f r0 Hf H0).
    split; [reflexivity|].
    destruct (indicator_frame_carries raw Hp f Hf r0 H0)
      as (_ & _ & _ & _ & _ & Hev).
    destruct (rf_enterprise_value f); cbn [is_some negb]; auto.
  - rewrite (bvps_of_no_snapshot raw Hp r0 Hf),
            (recomputes_ev_no_snapshot raw Hp Hf),
            (ev_of_no_snapshot raw Hp r0 Hf).
    split; reflexivity.
Qed.




(** What the code computes for book value per share: with a snapshot,
    equity over shares when the share count is positive and null
    otherwise, whatever the snapshot's own per-share book value is. *)
Lemma book_value_per_share_ignores_book_value (raw : RawData) f :
  rd_prices raw <> [] ->
  rd_fundamentals raw = Some f ->
  exists ws out,
    process_data raw = inr (ws, out)
    /\ forall r, In r (rows out) ->
         book_value_per_share r
         = match rf_shares_outstanding f, rf_total_shareholder_equity f with
           | Some s, Some e =>
               if (0 <? s) then fdiv (Fin e) (Fin (qz s)) else NaN
           | _, _ => NaN
           end.
Proof.
  intros Hp Hf.
  destruct (fundamentals_of_output_rows raw Hp) as (ws & out & E & H).
  exists ws, out. split; [exact E|]. intros r Hr. specialize (H r Hr).
  rewrite Hf in H. destruct H as [-> _]. unfold snapshot_bvps, bvps_expr.
  destruct (rf_shares_outstanding f) as [s|]; [|reflexivity].
  cbn [float_of_int].
  assert (Hs : fgt (Fin (qz s)) (Fin 0%Qc) = (0 <? s)).
  { change 0%Qc with (qz 0). unfold fgt, flt, fcompare.
    rewrite Qccompare_qz. unfold Z.ltb.
    destruct (0 ?= s); reflexivity. }
  rewrite Hs.
  destruct (rf_total_shareholder_equity f); cbn [float_of_decimal np_where];
    destruct (0 <? s); auto.
Qed.

(** C7: the code at the failing input.  A snapshot that supplies only
    the per-share book value (5) leaves [book_value_per_share] null: the
    fallback branch is reached only when the frame has no fundamentals
    columns at all, and then it has no [book_value] column either. *)
Theorem book_value_fallback_unreached :
  exists ws out r,
    process_data (mkRawData "T" [bar 1 1 1 1 1 None] (Some book_value_only))
    = inr (ws, out)
    /\ rows out = [r]
    /\ book_value_per_share r = NaN.
Proof.
  assert (G : match process_data
                      (mkRawData "T" [bar 1 1 1 1 1 None]
                         (Some book_value_only))
              with
              | inr (_, out) =>
                  match rows out with
                  | [r] => book_value_per_share r = NaN
                  | _ => False
                  end
              | inl _ => False
              end) by (vm_compute; reflexivity).
  revert G.
  destruct (process_data _) as [e|[ws out]] eqn:E; [intros []|].
  destruct (rows out) as [|r [|r' rs]] eqn:Er; [intros [] | | intros []].
  intros G. exists ws, out, r. repeat split; assumption || reflexivity.
Qed.

(** ** Row validation *)




(* ================================================================== *)
(** * Further properties of the code *)

(** ** Rolling indicators *)

(** X1.  [sma_200] on a frame with finite closes: row [i] is null while
    fewer than 20 rows are available and otherwise the mean of the
    closes of the window ending at row [i], which holds the [i + 1] rows
    so far until row 199 and exactly the 200 rows [i - 199 .. i] from
    then on. *)
Theorem sma_200_partial_window (df : DataFrame) (qs : list Qc) :
  has_columns ["date"; "close"; "high"] df = true ->
  map close (rows df) = map Fin qs ->
  exists out cs,
    _compute_indicators df = inr out
    /\ map close (rows out) = map Fin cs
    /\ Permutation cs qs
    /\ (forall i r, nth_error (rows out) i = Some r ->
          sma_200 r = if (S i <? 20)%nat then NaN
                      else Fin (mean (window 200 i cs)))
    /\ (forall i, (199 <= i < length qs)%nat ->
          window 200 i cs = firstn 200 (skipn (i - 199) cs)
          /\ length (window 200 i cs) = 200%nat)
    /\ (forall i, (i < 199)%nat -> window 200 i cs = firstn (S i) cs).
Proof.
  intros Hc Hq.
  destruct (_compute_indicators_nth df Hc) as (out & E & Hl & _ & Hcl & _ & Hn).
  set (s := sort_by_date (rows df)) in *.
  assert (P : Permutation (map close s) (map Fin qs)).
  { rewrite <- Hq. apply Permutation_map, sort_by_date_perm. }
  apply all_finite_perm in P as [Ecs Pcs].
  set (cs := finite_values (map close s)) in *.
  assert (Len : length cs = length qs) by now apply Permutation_length.
  assert (Lo : length (rows out) = length qs).
  { rewrite Hl. apply (f_equal (@length _)) in Hq.
    now rewrite !length_map in Hq. }
  exists out, cs.
  split; [exact E|]. split; [now rewrite Hcl|]. split; [exact Pcs|].
  split; [|split].
  - intros i r Hr. pose proof (nth_error_row _ _ _ Hr) as Hi.
    rewrite Hn in Hr. destruct (nth_error s i) as [r0|]; [|discriminate].
    injection Hr as <-.
    change (roll_mean 20 (window 200 i (map close s))
            = if (S i <? 20)%nat then NaN else Fin (mean (window 200 i cs))).
    rewrite Ecs. apply roll_mean_window_Fin; lia.
  - intros i Hi. split; [apply window_trailing; lia|].
    rewrite window_length; lia.
  - intros i Hi. apply window_short. lia.
Qed.

Lemma sma_200_partial_window_witness :
  exists out cs,
    _compute_indicators (frame_of_bars (rising_bars 22)) = inr out
    /\ map close (rows out) = map Fin cs
    /\ forall i r, nth_error (rows out) i = Some r ->
         sma_200 r = if (S i <? 20)%nat then NaN
                     else Fin (mean (window 200 i cs)).
Proof.
  destruct (sma_200_partial_window (frame_of_bars (rising_bars 22))
              (map (fun i => qz (Z.of_nat i)) (seq 0 22))
              eq_refl eq_refl)
    as (out & cs & E & Hc & _ & H & _).
  exists out, cs. auto.
Defined.

(** X2.  [high_52w] bounds the row's own high: on a frame with finite
    highs, from row 19 on [high_52w] is a number not below the high of
    the same row; and when the row's close is finite and not above that
    high, and [high_52w] is positive, [pct_from_52w_high] is a number
    not above zero. *)
Theorem high_52w_bounds_high (df : DataFrame) (hs : list Qc) :
  has_columns ["date"; "close"; "high"] df = true ->
  map high (rows df) = map Fin hs ->
  exists out,
    _compute_indicators df = inr out
    /\ forall i r, nth_error (rows out) i = Some r -> (19 <= i)%nat ->
         exists m h,
           high_52w r = Fin m /\ high r = Fin h /\ (h <= m)%Qc
           /\ forall c, close r = Fin c -> (c <= h)%Qc -> (0 < m)%Qc ->
                exists p, pct_from_52w_high r = Fin p /\ (p <= 0)%Qc.
Proof.
  intros Hc Hq.
  destruct (_compute_indicators_nth df Hc) as (out & E & Hl & _ & _ & Hh & Hn).
  set (s := sort_by_date (rows df)) in *.
  assert (P : Permutation (map high s) (map Fin hs)).
  { rewrite <- Hq. apply Permutation_map, sort_by_date_perm. }
  apply all_finite_perm in P as [Ems Pms].
  set (ms := finite_values (map high s)) in *.
  exists out. split; [exact E|]. intros i r Hr Hi.
  pose proof (nth_error_row _ _ _ Hr) as Li.
  rewrite Hn in Hr. destruct (nth_error s i) as [r0|] eqn:E0; [|discriminate].
  injection Hr as <-.
  assert (Lm : length ms = length (rows df)).
  { apply (f_equal (@length _)) in Ems. rewrite !length_map in Ems.
    rewrite <- Ems. apply sort_by_date_length. }
  pose proof (roll_max_window_Fin 20 252 i ms) as M.
  destruct (Nat.ltb_spec (S i) 20) as [G|G]; [lia|].
  destruct M as (m & Em & Hin & Hmax); [lia | lia |].
  assert (Eh : exists h, high r0 = Fin h /\ nth_error ms i = Some h).
  { pose proof (map_nth_error high i s E0) as N. rewrite Ems in N.
    rewrite nth_error_map in N.
    destruct (nth_error ms i) as [h|]; [|discriminate].
    exists h. split; auto. now injection N. }
  destruct Eh as (h & Eh & Nh).
  assert (Hle : (h <= m)%Qc).
  { apply Hmax. apply nth_error_in_window; [lia | exact Nh]. }
  exists m, h.
  assert (E52 : high_52w (indicator_row (map close s) (map high s) i r0)
                = Fin m) by (rewrite Ems; exact Em).
  split; [exact E52|]. split; [exact Eh|]. split; [exact Hle|].
  intros c Ec Hc' Hm. change (close r0 = Fin c) in Ec.
  exists ((c / m - 1) * qz 100)%Qc. split.
  - change (pct_expr (close r0) (roll_max 20 (window 252 i (map high s)))
            = Fin ((c / m - 1) * qz 100)%Qc).
    rewrite Ems, Em, Ec. apply pct_expr_finite.
    intros Z0; subst; discriminate Hm.
  - apply pct_nonpositive; auto. eapply Qcle_trans; eauto.
Qed.

Lemma high_52w_bounds_high_witness :
  exists out,
    _compute_indicators (frame_of_bars (rising_bars 22)) = inr out
    /\ forall i r, nth_error (rows out) i = Some r -> (19 <= i)%nat ->
         exists m h, high_52w r = Fin m /\ high r = Fin h /\ (h <= m)%Qc.
Proof.
  destruct (high_52w_bounds_high (frame_of_bars (rising_bars 22))
              (map (fun i => qz (Z.of_nat i + 1)) (seq 0 22))
              eq_refl eq_refl)
    as (out & E & H).
  exists out. split; [exact E|]. intros i r Hr Hi.
  destruct (H i r Hr Hi) as (m & h & A & B & C & _). now exists m, h.
Defined.

(** ** Crossovers need fifty rows of history *)



(** ** Ratios *)



(** ** The pipeline as a whole *)

(** X5.  The order in which the bars are supplied does not matter: two
    inputs with the same ticker and snapshot whose bars are a
    permutation of one another, with pairwise distinct dates, give the
    same result, table and warnings alike. *)
Theorem process_data_order_independent
    (t : string) (f : option RawFundamentals) (ps ps' : list PriceBar) :
  Permutation ps ps' ->
  NoDup (map pb_date ps) ->
  process_data (mkRawData t ps f) = process_data (mkRawData t ps' f).
Proof.
  intros P N.
  destruct (frame_of_bars_perm ps ps' P) as (C & R & D).
  assert (Nd : NoDup (map date (rows (frame_of_bars ps)))) by now rewrite D.
  unfold process_data. f_equal.
  unfold computed_table. cbn [rd_prices rd_fundamentals rd_ticker].
  destruct f as [fund|].
  - unfold getitem, has_column. rewrite <- C.
    destruct (in_dec string_dec "date" (columns (frame_of_bars ps))); auto.
    cbv beta iota delta [bind ret].
    rewrite <- (date_min_perm _ _ (Permutation_map date R)).
    rewrite (sort_values_date_perm
               (merge_left (frame_of_bars ps) fund
                  (date_min (map date (rows (frame_of_bars ps)))))
               (merge_left (frame_of_bars ps') fund
                  (date_min (map date (rows (frame_of_bars ps)))))); auto.
    + unfold merge_left; cbn [columns]. now rewrite C.
    + unfold merge_left; cbn [rows]. now apply Permutation_map.
    + unfold merge_left; cbn [rows]. now rewrite map_map.
  - cbv beta iota delta [bind ret]. unfold _compute_indicators.
    now rewrite (sort_values_date_perm _ _ C R Nd).
Qed.

Lemma process_data_order_independent_witness :
  process_data
    (mkRawData "T" [bar 3 1 2 1 1 None; bar 1 5 6 4 5 (Some 10);
                    bar 2 7 7 7 7 None] None)
  = process_data
      (mkRawData "T" [bar 1 5 6 4 5 (Some 10); bar 2 7 7 7 7 None;
                      bar 3 1 2 1 1 None] None).
Proof.
  apply process_data_order_independent.
  - apply Permutation_cons_append.
  - repeat constructor; simpl; intuition discriminate.
Defined.







(** ** Export *)



(** ** Persistence *)





(** X12.  Saving is idempotent: saving the same frame a second time,
    with pairwise distinct [(ticker, date)] rows, leaves the table
    exactly as the first save left it. *)
Theorem save_daily_metrics_idempotent (tbl tbl' : list DailyMetric)
    (df : DataFrame) :
  NoDup (map (fun r => (ticker r, date r)) (rows df)) ->
  save_daily_metrics tbl df = inr tbl' ->
  save_daily_metrics tbl' df = inr tbl'.
Proof.
  intros N. unfold save_daily_metrics.
  destruct (df_empty df); [intros _; reflexivity|].
  destruct (has_column "ticker" df); [|discriminate].
  destruct (has_column "date" df); [|discriminate].
  cbn [negb]. intros [= <-]. unfold ret. f_equal.
  rewrite !save_rows_fold.
  apply upserts_fixed. intros v Hv. apply upserts_hold; auto.
  now rewrite metric_keys_of_rows.
Qed.

Lemma save_daily_metrics_idempotent_witness :
  exists tbl',
    save_daily_metrics stale_table two_day_frame = inr tbl'
    /\ save_daily_metrics tbl' two_day_frame = inr tbl'.
Proof.
  destruct (save_daily_metrics stale_table two_day_frame) as [e|tbl'] eqn:E;
    [discriminate E|].
  exists tbl'. split; [reflexivity|].
  apply (save_daily_metrics_idempotent stale_table tbl' two_day_frame); auto.
  repeat constructor; simpl; intuition discriminate.
Defined.



(** X14.  [save_signal_events] inserts or ignores: the table afterwards
    is the table before followed by new rows only; each new row is the
    event [(symbol, d, signal_type)] of a requested date [d]; every
    requested date has its event in the table; and distinct events and
    distinct ids stay distinct. *)
Theorem save_signal_events_adds (tbl : list SignalRow) (symbol : string)
    (dates : list Z) (signal_type : string) :
  NoDup (map sr_event tbl) ->
  NoDup (map sr_id tbl) ->
  exists added,
    save_signal_events tbl symbol dates signal_type = (tbl ++ added)%list
    /\ (forall d, In d dates ->
          In (mkSignalEvent symbol d signal_type)
             (map sr_event (save_signal_events tbl symbol dates signal_type)))
    /\ (forall row, In row added ->
          exists d, In d dates
                    /\ sr_event row = mkSignalEvent symbol d signal_type)
    /\ NoDup (map sr_event (save_signal_events tbl symbol dates signal_type))
    /\ NoDup (map sr_id (save_signal_events tbl symbol dates signal_type)).
Proof.
  intros Nk Ni.
  destruct (save_signal_events_spec tbl symbol dates signal_type)
    as (added & E & A & B & C & D).
  exists added. repeat split; auto.
Qed.

Lemma save_signal_events_adds_witness :
  exists added,
    save_signal_events [] "T" [3; 5; 3] "golden_cross" = ([] ++ added)%list
    /\ NoDup (map sr_event
                (save_signal_events [] "T" [3; 5; 3] "golden_cross")).
Proof.
  destruct (save_signal_events_adds [] "T" [3; 5; 3] "golden_cross")
    as (added & E & _ & _ & N & _); [constructor | constructor |].
  exists added. auto.
Defined.

(** X15.  Recording signals is idempotent: saving the same dates a
    second time, repeated dates or not, changes nothing. *)
Theorem save_signal_events_idempotent (tbl : list SignalRow) (symbol : string)
    (dates : list Z) (signal_type : string) :
  save_signal_events (save_signal_events tbl symbol dates signal_type)
    symbol dates signal_type
  = save_signal_events tbl symbol dates signal_type.
Proof.
  apply inserts_fixed.
  destruct (save_signal_events_spec tbl symbol dates signal_type)
    as (added & _ & A & _).
  exact A.
Qed.

(** ** Computing the indicators again *)



(** ** Book value per share *)



(** ** The ticker table *)

(** X18.  [upsert_ticker] leaves a row for the symbol, and every row
    for the symbol carries the given market, name and currency; rows of
    other symbols are there afterwards exactly if they were there
    before; pairwise distinct symbols stay pairwise distinct; and
    repeating the call changes nothing. *)
Theorem upsert_ticker_result (tbl : list Ticker) (symbol : string)
    (market name currency : option string) :
  let tbl' := upsert_ticker tbl symbol market name currency in
  (exists row, In row tbl' /\ tk_symbol row = symbol)
  /\ (forall row, In row tbl' -> tk_symbol row = symbol ->
        tk_market row = market /\ tk_name row = name
        /\ tk_currency row = currency)
  /\ (forall row, tk_symbol row <> symbol -> (In row tbl' <-> In row tbl))
  /\ (NoDup (map tk_symbol tbl) -> NoDup (map tk_symbol tbl'))
  /\ upsert_ticker tbl' symbol market name currency = tbl'.
Proof.
  intros tbl'.
  assert (Et : tbl' = upsert_ticker tbl symbol market name currency)
    by reflexivity.
  clearbody tbl'. unfold upsert_ticker in Et.
  destruct (existsb (fun row => (tk_symbol row =? symbol)%string) tbl) eqn:E;
    subst tbl'.
  - set (upd := fun row : Ticker =>
                  if (tk_symbol row =? symbol)%string
                  then mkTicker (tk_id row) (tk_symbol row) market name currency
                  else row).
    assert (Sy : forall row, tk_symbol (upd row) = tk_symbol row).
    { intros row. unfold upd. now destruct (tk_symbol row =? symbol)%string. }
    split; [|split; [|split; [|split]]].
    + apply existsb_exists in E as (row & Hr & Hs).
      exists (upd row). split; [now apply in_map|].
      rewrite Sy. now apply String.eqb_eq.
    + intros row Hr Hs. apply in_map_iff in Hr as (r0 & <- & H0).
      rewrite Sy in Hs. apply String.eqb_eq in Hs. unfold upd.
      rewrite Hs. auto.
    + intros row Hn. apply String.eqb_neq in Hn. rewrite in_map_iff. split.
      * intros (r0 & <- & H0). unfold upd in *.
        destruct (tk_symbol r0 =? symbol)%string eqn:X; auto.
        cbn [tk_symbol] in Hn. congruence.
      * intros H. exists row. unfold upd. now rewrite Hn.
    + intros N. rewrite map_map.
      now rewrite (map_ext _ tk_symbol Sy).
    + unfold upsert_ticker.
      replace (existsb (fun row => (tk_symbol row =? symbol)%string)
                 (map upd tbl)) with true.
      * rewrite map_map. apply map_ext. intros row. fold (upd (upd row)).
        unfold upd. destruct (tk_symbol row =? symbol)%string eqn:X; cbn;
          now rewrite X.
      * symmetry. apply existsb_exists in E as (row & Hr & Hs).
        apply existsb_exists. exists (upd row). split; [now apply in_map|].
        now rewrite Sy.
  - assert (Ab : forall row, In row tbl -> tk_symbol row <> symbol).
    { intros row Hr Hs. apply String.eqb_eq in Hs.
      assert (X : existsb (fun row => (tk_symbol row =? symbol)%string) tbl
                  = true) by (apply existsb_exists; eauto).
      congruence. }
    split; [|split; [|split; [|split]]].
    + eexists. split; [apply in_or_app; right; left; reflexivity|reflexivity].
    + intros row Hr Hs. apply in_app_or in Hr as [Hr|[<-|[]]]; auto.
      exfalso. exact (Ab row Hr Hs).
    + intros row Hn. rewrite in_app_iff. split; auto.
      intros [H|[<-|[]]]; auto. cbn [tk_symbol] in Hn. congruence.
    + intros N. rewrite map_app. apply NoDup_app; auto.
      * repeat constructor. intros [].
      * intros s Hs [<-|[]]. apply in_map_iff in Hs as (row & Es & Hr).
        exact (Ab row Hr Es).
    + unfold upsert_ticker.
      replace (existsb (fun row => (tk_symbol row =? symbol)%string)
                 (tbl ++ [mkTicker (next_id (map tk_id tbl)) symbol market
                            name currency])) with true.
      * rewrite map_app. f_equal.
        -- rewrite <- (map_id tbl) at 2. apply map_ext_in. intros row Hr.
           apply Ab, String.eqb_neq in Hr. now rewrite Hr.
        -- cbn. now rewrite String.eqb_refl.
      * symmetry. rewrite existsb_app. cbn. rewrite String.eqb_refl.
        now rewrite orb_true_r.
Qed.

Lemma upsert_ticker_result_witness :
  NoDup (map tk_symbol (upsert_ticker [mkTicker 1 "T" None None None] "T"
                          None None (Some "USD"))).
Proof.
  destruct (upsert_ticker_result [mkTicker 1 "T" None None None] "T"
              None None (Some "USD")) as (_ & _ & _ & N & _).
  apply N. repeat constructor; simpl; intuition.
Defined.
